(** * A shallow embedding of the supply-chain ledger (blockchain.py)

    The ledger engine of the repository is [blockchain.py]: a [Block] class
    whose digest is the SHA-256 of a canonical JSON rendering of its fields,
    and a [Blockchain] class that links, seals, validates, persists and
    projects blocks.  This file embeds that module and proves the properties
    its specification states.

    Layout: [Sha256] (hashlib.sha256 ... hexdigest), [Json] (the values the
    json module reads and writes, and json.dumps with sort_keys=True),
    [Ledger] (the two classes), [WebApp] (the add_product route of app.py),
    then the theorems. *)

From Stdlib Require Import ZArith Lia List Bool Ascii String DecimalString.
From Stdlib Require Import Sorting.Permutation.
From stdpp Require Import base option list gmap strings.

Local Open Scope Z_scope.

(* ===================================================================== *)
(** ** hashlib.sha256                                                     *)
(* ===================================================================== *)

Module Sha256.

(** A 32-bit word is a [Z] in [0, 2^32); every operation that can leave
    that range wraps around explicitly. *)
Definition wrap (x : Z) : Z := Z.land x 0xFFFFFFFF.
Definition add32 (x y : Z) : Z := wrap (x + y).
Definition rotr (n x : Z) : Z :=
  Z.lor (Z.shiftr x n) (wrap (Z.shiftl x (32 - n))).
Definition not32 (x : Z) : Z := Z.lxor x 0xFFFFFFFF.

Definition ch (x y z : Z) : Z := Z.lxor (Z.land x y) (Z.land (not32 x) z).
Definition maj (x y z : Z) : Z :=
  Z.lxor (Z.lxor (Z.land x y) (Z.land x z)) (Z.land y z).
Definition bsig0 (x : Z) : Z := Z.lxor (Z.lxor (rotr 2 x) (rotr 13 x)) (rotr 22 x).
Definition bsig1 (x : Z) : Z := Z.lxor (Z.lxor (rotr 6 x) (rotr 11 x)) (rotr 25 x).
Definition ssig0 (x : Z) : Z := Z.lxor (Z.lxor (rotr 7 x) (rotr 18 x)) (Z.shiftr x 3).
Definition ssig1 (x : Z) : Z := Z.lxor (Z.lxor (rotr 17 x) (rotr 19 x)) (Z.shiftr x 10).

(** The constants are defined as the standard defines them: the round
    constants are the first 32 bits of the fractional parts of the cube
    roots of the first 64 primes, the initial digest those of the square
    roots of the first 8 primes. *)
Definition is_prime (p : nat) : bool :=
  forallb (fun d => negb (Nat.eqb (Nat.modulo p d) 0)) (seq 2 (p - 2)).

Definition primes : list Z :=
  List.map Z.of_nat (List.filter is_prime (seq 2 310)).

(** The integer cube root, one bit at a time from the top. *)
Fixpoint cube_root_bits (bits : nat) (n r : Z) : Z :=
  match bits with
  | O => r
  | S bits' =>
      let c := Z.lor r (Z.shiftl 1 (Z.of_nat bits')) in
      cube_root_bits bits' n (if c * c * c <=? n then c else r)
  end.

Definition fraction_of_cube_root (p : Z) : Z :=
  wrap (cube_root_bits 36 (Z.shiftl p 96) 0).

Definition fraction_of_square_root (p : Z) : Z :=
  wrap (Z.sqrt (Z.shiftl p 64)).

Definition round_constants : list Z :=
  Eval vm_compute in List.map fraction_of_cube_root primes.

(** The eight working variables, also the running digest. *)
Record regs : Type := Regs {
  ra : Z; rb : Z; rc : Z; rd : Z; re : Z; rf : Z; rg : Z; rh : Z }.

Definition initial_words : list Z :=
  Eval vm_compute in List.map fraction_of_square_root (firstn 8 primes).

Definition initial_regs : regs :=
  Regs (nth 0 initial_words 0) (nth 1 initial_words 0)
       (nth 2 initial_words 0) (nth 3 initial_words 0)
       (nth 4 initial_words 0) (nth 5 initial_words 0)
       (nth 6 initial_words 0) (nth 7 initial_words 0).

(** Message schedule.  [recent] holds the words computed so far, newest
    first, so that W[t-2], W[t-7], W[t-15] and W[t-16] sit at positions
    1, 6, 14 and 15. *)
Definition next_word (recent : list Z) : Z :=
  add32 (add32 (add32 (ssig1 (nth 1 recent 0)) (nth 6 recent 0))
               (ssig0 (nth 14 recent 0)))
        (nth 15 recent 0).

Fixpoint extend (n : nat) (recent : list Z) : list Z :=
  match n with
  | O => recent
  | S n' => extend n' (next_word recent :: recent)
  end.

Definition schedule (chunk : list Z) : list Z :=
  List.rev (extend 48 (List.rev chunk)).

Definition round (r : regs) (kw : Z * Z) : regs :=
  let t1 := add32 (add32 (add32 (add32 (rh r) (bsig1 (re r)))
                                (ch (re r) (rf r) (rg r)))
                         (fst kw))
                  (snd kw) in
  let t2 := add32 (bsig0 (ra r)) (maj (ra r) (rb r) (rc r)) in
  Regs (add32 t1 t2) (ra r) (rb r) (rc r) (add32 (rd r) t1) (re r) (rf r) (rg r).

Definition compress (r : regs) (chunk : list Z) : regs :=
  let r' := fold_left round (combine round_constants (schedule chunk)) r in
  Regs (add32 (ra r) (ra r')) (add32 (rb r) (rb r'))
       (add32 (rc r) (rc r')) (add32 (rd r) (rd r'))
       (add32 (re r) (re r')) (add32 (rf r) (rf r'))
       (add32 (rg r) (rg r')) (add32 (rh r) (rh r')).

(** Padding: a 1 bit, zeros up to 56 mod 64 bytes, the bit length on 64
    bits, big-endian. *)
Definition be_bytes (n : nat) (x : Z) : list Z :=
  List.map (fun i => Z.land (Z.shiftr x (8 * Z.of_nat i)) 0xFF) (List.rev (seq 0 n)).

Definition pad (msg : list Z) : list Z :=
  let len := Z.of_nat (List.length msg) in
  let zeros := Z.to_nat ((55 - len) mod 64) in
  msg ++ 0x80 :: repeat 0 zeros ++ be_bytes 8 (8 * len).

Fixpoint words (bs : list Z) : list Z :=
  match bs with
  | b0 :: b1 :: b2 :: b3 :: rest =>
      Z.lor (Z.shiftl b0 24) (Z.lor (Z.shiftl b1 16) (Z.lor (Z.shiftl b2 8) b3))
      :: words rest
  | _ => []
  end.

Fixpoint absorb (chunks : nat) (r : regs) (ws : list Z) : regs :=
  match chunks with
  | O => r
  | S n => absorb n (compress r (firstn 16 ws)) (skipn 16 ws)
  end.

Definition digest (msg : list Z) : regs :=
  let padded := pad msg in
  absorb (List.length padded / 64)%nat initial_regs (words padded).

(** hexdigest: 64 lowercase hexadecimal characters. *)
Definition hex_digit (n : Z) : ascii :=
  if n <? 10 then ascii_of_N (Z.to_N (48 + n)) else ascii_of_N (Z.to_N (87 + n)).

Definition nibble (w : Z) (i : Z) : ascii :=
  hex_digit (Z.land (Z.shiftr w (4 * i)) 0xF).

Definition hex_word (w : Z) (rest : string) : string :=
  String (nibble w 7) (String (nibble w 6) (String (nibble w 5) (String (nibble w 4)
 (String (nibble w 3) (String (nibble w 2) (String (nibble w 1) (String (nibble w 0)
  rest))))))).

Definition hex_regs (r : regs) : string :=
  hex_word (ra r) (hex_word (rb r) (hex_word (rc r) (hex_word (rd r)
 (hex_word (re r) (hex_word (rf r) (hex_word (rg r) (hex_word (rh r) ""))))))).

(** [str.encode()] on the output of json.dumps: the text is pure ASCII
    (ensure_ascii is on), so each character is one byte. *)
Definition encode (s : string) : list Z :=
  List.map (fun c => Z.of_N (N_of_ascii c)) (list_ascii_of_string s).

(** [hashlib.sha256(s.encode()).hexdigest()] *)
Definition hexdigest (s : string) : string := hex_regs (digest (encode s)).

End Sha256.

(* ===================================================================== *)
(** ** The json module                                                    *)
(* ===================================================================== *)

Module Json.

(** What [json.load] returns and [json.dumps] accepts.  A Python [str] is
    modelled by a [string] with one character per code point, so the
    model covers code points below 256.  A [float] is identified by its
    [repr], the shortest decimal text that reads back as the same float:
    that text is what json.dumps writes and what json.load parses, and no
    code of the ledger computes with a float.  A [dict] is the list of
    its items in insertion order; in a Python dict the keys are pairwise
    distinct ([dict_ok]). *)
#[warnings="-register-all"] Inductive value : Type :=
| VNone
| VBool (b : bool)
| VInt (z : Z)
| VFloat (repr : string)
| VStr (s : string)
| VList (elems : list value)
| VDict (items : list (string * value)).

Definition dict_ok {A} (items : list (string * A)) : Prop :=
  NoDup (List.map fst items).

(** [d[k]] and [d.get(k)]: the first (and, in a dict, the only) item. *)
Fixpoint lookup {A} (k : string) (items : list (string * A)) : option A :=
  match items with
  | [] => None
  | (k', v) :: rest => if String.eqb k k' then Some v else lookup k rest
  end.

(** *** Text of the scalars *)

Definition int_str (z : Z) : string := NilZero.string_of_int (Z.to_int z).

Definition dquote : ascii := "034"%char.
Definition backslash : ascii := "092"%char.

Definition hex4 (n : Z) : string :=
  String (Sha256.nibble n 3) (String (Sha256.nibble n 2)
 (String (Sha256.nibble n 1) (String (Sha256.nibble n 0) ""))).

(** One character under ensure_ascii: the two-character escapes, the
    printable ASCII range as it is, [\uXXXX] for the rest. *)
Definition escape_char (c : ascii) : string :=
  let n := Z.of_N (N_of_ascii c) in
  if n =? 34 then String backslash (String dquote "")
  else if n =? 92 then String backslash (String backslash "")
  else if n =? 10 then String backslash "n"
  else if n =? 13 then String backslash "r"
  else if n =? 9 then String backslash "t"
  else if n =? 8 then String backslash "b"
  else if n =? 12 then String backslash "f"
  else if (32 <=? n) && (n <=? 126) then String c ""
  else String backslash (String "u" (hex4 n)).

Fixpoint escape (s : string) : string :=
  match s with
  | EmptyString => EmptyString
  | String c rest => escape_char c ++ escape rest
  end.

Definition quote (s : string) : string :=
  String dquote (escape s ++ String dquote "").

(** [sep.join(parts)] *)
Fixpoint join (sep : string) (parts : list string) : string :=
  match parts with
  | [] => ""
  | [p] => p
  | p :: rest => p ++ sep ++ join sep rest
  end.

(** *** sort_keys

    The encoder sorts the items of a dict before writing them.  Keys are
    strings, compared code point by code point ([String.leb]); distinct
    keys never tie, so only the key decides.  The sort is the stable
    insertion sort. *)
Section Sort.
Context {A : Type}.

Fixpoint insert_item (x : string * A) (l : list (string * A)) : list (string * A) :=
  match l with
  | [] => [x]
  | y :: rest =>
      if String.leb (fst x) (fst y) then x :: y :: rest
      else y :: insert_item x rest
  end.

Definition sort_items (l : list (string * A)) : list (string * A) :=
  fold_right insert_item [] l.
End Sort.

Definition member (kv : string * string) : string :=
  quote (fst kv) ++ ": " ++ snd kv.

(** [json.dumps(v, sort_keys=True)], with the default separators.  Each
    item's value is rendered first and the rendered items are then put in
    key order: the same text as sorting the items first. *)
Fixpoint dumps (v : value) : string :=
  match v with
  | VNone => "null"
  | VBool true => "true"
  | VBool false => "false"
  | VInt z => int_str z
  | VFloat r => r
  | VStr s => quote s
  | VList elems => "[" ++ join ", " (List.map dumps elems) ++ "]"
  | VDict items =>
      "{" ++ join ", "
               (List.map member
                  (sort_items (List.map (fun kv => (fst kv, dumps (snd kv))) items)))
          ++ "}"
  end.

End Json.

(* ===================================================================== *)
(** ** blockchain.py                                                      *)
(* ===================================================================== *)

Module Ledger.
Import Json.

(** *** class Block

    The fields carry the types of the constructor's annotations where the
    code computes with them ([index + 1], [nonce += 1], [startswith],
    comparison of digests); [timestamp] and [data] are only ever
    serialised and stay arbitrary JSON values. *)
Record Block : Type := mkBlock {
  index : Z;
  timestamp : value;
  data : value;
  previous_hash : string;
  nonce : Z;
  hash : string }.

Definition set_nonce (n : Z) (b : Block) : Block :=
  mkBlock (index b) (timestamp b) (data b) (previous_hash b) n (hash b).
Definition set_hash (h : string) (b : Block) : Block :=
  mkBlock (index b) (timestamp b) (data b) (previous_hash b) (nonce b) h.
Definition set_index (i : Z) (b : Block) : Block :=
  mkBlock i (timestamp b) (data b) (previous_hash b) (nonce b) (hash b).
Definition set_previous_hash (p : string) (b : Block) : Block :=
  mkBlock (index b) (timestamp b) (data b) p (nonce b) (hash b).

(** The text that is hashed: json.dumps of the five fields, keys sorted. *)
Definition block_string (b : Block) : string :=
  dumps (VDict [ ("index", VInt (index b));
                 ("timestamp", timestamp b);
                 ("data", data b);
                 ("previous_hash", VStr (previous_hash b));
                 ("nonce", VInt (nonce b)) ]).

(** [Block.compute_hash] *)
Definition compute_hash (b : Block) : string :=
  Sha256.hexdigest (block_string b).

(** [Block.__init__]: the five fields, then [self.hash = self.compute_hash()]. *)
Definition Block_init (i : Z) (t d : value) (p : string) (n : Z) : Block :=
  let b := mkBlock i t d p n "" in
  set_hash (compute_hash b) b.

(** *** The world outside the process

    The file system maps a path to what reading it gives.  [NoAccess]: the
    file exists and [open] raises; [NotJson]: the text is not a JSON
    document and [json.load] raises; [Json doc]: the document that
    [json.load] returns, which is also what [json.dump] wrote.  [faults]
    tells for which paths writing fails, and how.  [stdout] collects what
    [print] writes, oldest first. *)
Inductive exn : Type :=
| OSError
| JSONDecodeError
| KeyError (key : string)
| TypeError
| IndexError.

Inductive file : Type :=
| NoAccess
| NotJson
| Json (doc : value).

Inductive line : Type :=
| ErrorSavingChain (e : exn).

(** How writing a path fails.  [OpenFails]: [open(path, "w")] raises and
    the file is not touched.  [WriteFails]: the file is opened, which
    empties it, and an error stops [json.dump] before the text is complete:
    what is left, nothing or the beginning of a list, is not JSON. *)
Inductive fault : Type :=
| OpenFails
| WriteFails.

Record World : Type := mkWorld {
  fs : gmap string file;
  faults : gmap string fault;
  stdout : list line }.

(** The paths that cannot be written without an error. *)
Definition readonly (w : World) : gset string := dom (faults w).

(** A call returns or raises. *)
Inductive outcome (A : Type) : Type :=
| Returns (a : A)
| Raises (e : exn).
Arguments Returns {A} a.
Arguments Raises {A} e.

(** Loading reads values of any JSON type into the typed fields of a
    [Block].  [None] marks a document that is outside the typed model (a
    field present with another JSON type than its annotation: Python
    stores it as it is); the model says nothing about such a run. *)
Definition M (A : Type) : Type := option (outcome A).
Definition ret {A} (a : A) : M A := Some (Returns a).
Definition raise {A} (e : exn) : M A := Some (Raises e).
Definition untyped {A} : M A := None.
Definition bind {A B} (m : M A) (k : A -> M B) : M B :=
  match m with
  | Some (Returns a) => k a
  | Some (Raises e) => Some (Raises e)
  | None => None
  end.
Notation "'let!' x ':=' m 'in' k" := (bind m (fun x => k))
  (at level 10, x name, m at level 100, k at level 200).

Definition as_int (v : value) : M Z :=
  match v with VInt z => ret z | _ => untyped end.
Definition as_str (v : value) : M string :=
  match v with VStr s => ret s | _ => untyped end.

(** [item[k]] on a dict: KeyError when the key is absent. *)
Definition getitem (k : string) (d : list (string * value)) : M value :=
  match lookup k d with
  | Some v => ret v
  | None => raise (KeyError k)
  end.

(** [item.get(k, default)] *)
Definition get_default (k : string) (d : list (string * value)) (default : value) : value :=
  match lookup k d with
  | Some v => v
  | None => default
  end.

(** *** class Blockchain *)
Record Blockchain : Type := mkBlockchain {
  chain : list Block;
  difficulty : Z;
  persist_file : string }.

Definition set_chain (c : list Block) (self : Blockchain) : Blockchain :=
  mkBlockchain c (difficulty self) (persist_file self).

(** [Blockchain.to_list] *)
Definition block_record (b : Block) : value :=
  VDict [ ("index", VInt (index b));
          ("timestamp", timestamp b);
          ("data", data b);
          ("previous_hash", VStr (previous_hash b));
          ("nonce", VInt (nonce b));
          ("hash", VStr (hash b)) ].

Definition to_list (self : Blockchain) : value :=
  VList (List.map block_record (chain self)).

(** [Blockchain.save_chain]: the file is opened with mode "w" and the
    whole chain is written; an exception of [open] or of [json.dump] is
    caught and printed. *)
Definition save_chain (self : Blockchain) (w : World) : World :=
  match faults w !! persist_file self with
  | None =>
      mkWorld (<[persist_file self := Json (to_list self)]> (fs w))
              (faults w) (stdout w)
  | Some OpenFails =>
      mkWorld (fs w) (faults w) (stdout w ++ [ErrorSavingChain OSError])
  | Some WriteFails =>
      mkWorld (<[persist_file self := NotJson]> (fs w))
              (faults w) (stdout w ++ [ErrorSavingChain OSError])
  end.

(** The body of the loop of [load_chain] for one item.  Subscripting
    anything but a dict with a string raises TypeError. *)
Definition load_item (item : value) : M Block :=
  match item with
  | VDict d =>
      let! i := getitem "index" d in
      let! t := getitem "timestamp" d in
      let! dt := getitem "data" d in
      let! p := getitem "previous_hash" d in
      let! i := as_int i in
      let! p := as_str p in
      let! n := as_int (get_default "nonce" d (VInt 0)) in
      let b := Block_init i t dt p n in
      let! h := as_str (get_default "hash" d (VStr (compute_hash b))) in
      ret (set_hash h b)
  | _ => raise TypeError
  end.

Fixpoint load_items (items : list value) : M (list Block) :=
  match items with
  | [] => ret []
  | item :: rest =>
      let! b := load_item item in
      let! bs := load_items rest in
      ret (b :: bs)
  end.

(** [for item in raw]: a list gives its elements, a dict its keys, a
    string its characters; nothing else is iterable. *)
Definition iterate (raw : value) : M (list value) :=
  match raw with
  | VList elems => ret elems
  | VDict items => ret (List.map (fun kv => VStr (fst kv)) items)
  | VStr s => ret (List.map (fun c => VStr (String c "")) (list_ascii_of_string s))
  | _ => raise TypeError
  end.

(** [Blockchain.load_chain]: [self.chain] is assigned once every item has
    been read. *)
Definition load_chain (self : Blockchain) (w : World) : M Blockchain :=
  match fs w !! persist_file self with
  | None => raise OSError
  | Some NoAccess => raise OSError
  | Some NotJson => raise JSONDecodeError
  | Some (Json raw) =>
      let! items := iterate raw in
      let! c := load_items items in
      ret (set_chain c self)
  end.

(** [Blockchain.create_genesis_block]; [now] is what [time.time()]
    returns. *)
Definition genesis_data : value :=
  VDict [ ("type", VStr "GENESIS"); ("note", VStr "genesis block") ].

Definition create_genesis_block (now : value) (self : Blockchain) (w : World)
  : Blockchain * World :=
  let genesis := Block_init 0 now genesis_data "0" 0 in
  let self' := set_chain [genesis] self in
  (self', save_chain self' w).

(** [Blockchain.__init__]; [os.path.exists] is membership in the file
    system, and [except Exception] catches whatever [load_chain] raises. *)
Definition init (persist_file : string) (difficulty : Z) (now : value) (w : World)
  : option (Blockchain * World) :=
  let self := mkBlockchain [] difficulty persist_file in
  match fs w !! persist_file with
  | Some _ =>
      match load_chain self w with
      | Some (Returns self') => Some (self', w)
      | Some (Raises _) => Some (create_genesis_block now self w)
      | None => None
      end
  | None => Some (create_genesis_block now self w)
  end.

(** ['0' * d]: empty when [d] is not positive. *)
Definition zeros (d : Z) : string :=
  string_of_list_ascii (repeat "0"%char (Z.to_nat d)).

(** [computed.startswith('0' * d)] *)
Definition meets (d : Z) (computed : string) : bool :=
  String.prefix (zeros d) computed.

(** [Blockchain.proof_of_work].  The while loop is unbounded in the
    source; [fuel] bounds the number of times its condition is tested, and
    [None] means the bound was reached with the loop still running. *)
Fixpoint pow_loop (fuel : nat) (d : Z) (block : Block) (computed : string)
  : option Block :=
  match fuel with
  | O => None
  | S fuel' =>
      if meets d computed then Some (set_hash computed block)
      else
        let block' := set_nonce (nonce block + 1) block in
        pow_loop fuel' d block' (compute_hash block')
  end.

Definition proof_of_work (fuel : nat) (self : Blockchain) (block : Block)
  : option Block :=
  pow_loop fuel (difficulty self) block (compute_hash block).

(** [Blockchain.add_block]: [self.chain[-1]] raises IndexError on an empty
    chain. *)
Definition add_block (fuel : nat) (now : value) (payload : value)
    (self : Blockchain) (w : World)
  : option (outcome Block * Blockchain * World) :=
  match last (chain self) with
  | None => Some (Raises IndexError, self, w)
  | Some prev =>
      let new_index := index prev + 1 in
      let block := Block_init new_index now payload (hash prev) 0 in
      match proof_of_work fuel self block with
      | None => None
      | Some block =>
          let self' := set_chain (chain self ++ [block]) self in
          Some (Returns block, self', save_chain self' w)
      end
  end.

(** [Blockchain.is_chain_valid]: the loop over [range(1, len(chain))]. *)
Fixpoint valid_loop (c : list Block) (range : list nat) : bool :=
  match range with
  | [] => true
  | i :: range' =>
      match c !! i, c !! (i - 1)%nat with
      | Some curr, Some prev =>
          if negb (String.eqb (previous_hash curr) (hash prev)) then false
          else if negb (String.eqb (compute_hash curr) (hash curr)) then false
          else valid_loop c range'
      | _, _ => false
      end
  end.

Definition is_chain_valid (self : Blockchain) : bool :=
  valid_loop (chain self) (seq 1 (List.length (chain self) - 1)).

(** [Blockchain.get_all_events]: [self.chain[1:]]. *)
Definition event (b : Block) : value :=
  VDict [ ("block_index", VInt (index b));
          ("timestamp", timestamp b);
          ("data", data b);
          ("hash", VStr (hash b));
          ("previous_hash", VStr (previous_hash b)) ].

Definition get_all_events (self : Blockchain) : list value :=
  List.map event (drop 1 (chain self)).

End Ledger.

Import Json Ledger.

(** Digests are computed by [vm_compute] on closed terms only. *)
Arguments Sha256.hexdigest : simpl never.
Arguments compute_hash : simpl never.

(* ===================================================================== *)
(** ** Notions used by the statements                                     *)
(* ===================================================================== *)

(** The counter tried after [k] failed tests. *)
Definition tried (b : Block) (k : nat) : Block :=
  set_nonce (nonce b + Z.of_nat k) b.

(** The two checks of the loop body at position [i]. *)
Definition linked (c : list Block) (i : nat) : Prop :=
  exists curr prev,
    c !! i = Some curr /\ c !! (i - 1)%nat = Some prev /\
    previous_hash curr = hash prev.

Definition consistent (c : list Block) (i : nat) : Prop :=
  exists curr, c !! i = Some curr /\ compute_hash curr = hash curr.

(** What makes the loop return False at position [i]. *)
Definition fails (c : list Block) (i : nat) : Prop :=
  exists curr prev,
    c !! i = Some curr /\ c !! (i - 1)%nat = Some prev /\
    (previous_hash curr <> hash prev \/ compute_hash curr <> hash curr).

(** [built appended self]: the ledger [self] was initialised with a fresh
    genesis block and then grew by calls of [add_block] that returned the
    blocks [appended], in that order. *)
Inductive built : list Block -> Blockchain -> Prop :=
| built_genesis (now : value) (self : Blockchain) (w : World) :
    built [] (fst (create_genesis_block now self w))
| built_append (appended : list Block) (self : Blockchain)
    (fuel : nat) (now payload : value) (w : World)
    (block : Block) (self' : Blockchain) (w' : World) :
    built appended self ->
    add_block fuel now payload self w = Some (Returns block, self', w') ->
    built (appended ++ [block]) self'.

(* ===================================================================== *)
(** ** Concrete ledgers and worlds                                        *)
(* ===================================================================== *)

(** A world with no file at all, all paths writable, nothing printed. *)
Definition fresh : World := mkWorld ∅ ∅ [].

Definition genesis_digest : string :=
  "8420405ca4ce3e3fe70145d398f8bc5446a363c83f0b970c09b3fc0e1f669ceb".

(** A candidate as [add_block] builds it on the genesis block created at
    time 1700000000.0. *)
Definition candidate1 : Block :=
  Block_init 1 (VFloat "1700000001.5")
    (VDict [("product_id", VStr "P1"); ("stage", VStr "Created")])
    genesis_digest 0.

Definition sealed1 : Block :=
  set_hash (compute_hash (set_nonce 6 candidate1)) (set_nonce 6 candidate1).

(** The ledger right after construction at time 1700000000.0 with
    difficulty 1 and no file. *)
Definition genesis_ledger : Blockchain :=
  mkBlockchain [Block_init 0 (VFloat "1700000000.0") genesis_data "0" 0]
               1 "chain.json".

(** The ledger after one append at difficulty 1: genesis created at
    1700000000.0, then a block sealed with counter 6. *)
Definition sealed_pair : Blockchain :=
  let genesis := Block_init 0 (VFloat "1700000000.0") genesis_data "0" 0 in
  let sealed := set_nonce 6 candidate1 in
  mkBlockchain [genesis; set_hash (compute_hash sealed) sealed] 1 "chain.json".

(** A ledger of difficulty 5 holding a chain that was linked without any
    sealing effort: the digest of its second block starts with f. *)
Definition unsealed_pair : Blockchain :=
  let genesis := Block_init 0 (VFloat "1700000000.0") genesis_data "0" 0 in
  mkBlockchain
    [ genesis;
      Block_init 1 (VFloat "1700000001.5")
        (VDict [("product_id", VStr "P1"); ("stage", VStr "Created")])
        (hash genesis) 0 ]
    5 "chain.json".



Definition empty_list_world : World :=
  mkWorld {["chain.json" := Json (VList [])]} ∅ [].

(** The file of the ledger is write-protected and is not JSON. *)
Definition protected_world : World :=
  mkWorld {["chain.json" := NotJson]} {["chain.json" := OpenFails]} [].

(** The file of the ledger holds the empty list and can be opened, but no
    write to it completes. *)
Definition full_disk_world : World :=
  mkWorld {["chain.json" := Json (VList [])]} {["chain.json" := WriteFails]} [].

(** A ledger of difficulty 0 that holds a genesis block. *)
Definition easy_ledger : Blockchain :=
  mkBlockchain [Block_init 0 (VFloat "1700000000.0") genesis_data "0" 0]
               0 "chain.json".

Definition easy_block : Block :=
  Block_init 1 (VFloat "1700000001.5") (VDict [("stage", VStr "Created")])
             genesis_digest 0.

(* ===================================================================== *)
(** ** app.py: the add_product route                                      *)
(* ===================================================================== *)

Module WebApp.

(** The module-level state of the application: the ledger [bc] and the
    dict [products], from product id to product record. *)
Record App : Type := mkApp {
  bc : Blockchain;
  products : gmap string value }.

(** What a route returns. *)
Inductive response : Type :=
| Redirect (endpoint : string).

(** [x or y] where [x] is [request.form.get(key)]: the form's first value
    for the key, unless the key is absent or the value is empty. *)
Definition or_else (x : option string) (y : string) : string :=
  match x with
  | None => y
  | Some EmptyString => y
  | Some s => s
  end.

(** The product id and the name that [add_product] settles on; [secs] is
    [int(datetime.utcnow().timestamp())]. *)
Definition product_id_of (form : list (string * string)) (secs : Z) : string :=
  or_else (lookup "product_id" form) ("P" ++ int_str secs).

Definition name_of (form : list (string * string)) (pid : string) : string :=
  or_else (lookup "name" form) ("Product " ++ pid).

Definition product_record (pid name iso : string) : value :=
  VDict [ ("product_id", VStr pid); ("name", VStr name); ("created_at", VStr iso) ].

(** The payload of the creation event. *)
Definition creation_data (form : list (string * string)) (pid : string) : value :=
  VDict [ ("product_id", VStr pid);
          ("stage", VStr "Created");
          ("location", VStr (default "Factory"%string (lookup "location" form)));
          ("transit_time_hours", VInt 0);
          ("skipped_stage", VInt 0);
          ("is_duplicate", VInt 0) ].

(** [add_product]: [form] is [request.form], [iso] is
    [datetime.utcnow().isoformat()], [now] is the [time.time()] of
    [add_block].  The product is registered before the block is added; an
    exception of [add_block] leaves the route. *)
Definition add_product (fuel : nat) (secs : Z) (iso : string) (now : value)
    (form : list (string * string)) (app : App) (w : World)
  : option (outcome response * App * World) :=
  let pid := product_id_of form secs in
  let name := name_of form pid in
  let products' := <[pid := product_record pid name iso]> (products app) in
  let data := creation_data form pid in
  match add_block fuel now data (bc app) w with
  | None => None
  | Some (Raises e, bc', w') => Some (Raises e, mkApp bc' products', w')
  | Some (Returns _, bc', w') => Some (Returns (Redirect "index"), mkApp bc' products', w')
  end.

End WebApp.

Import WebApp.

(* ===================================================================== *)
(** ** Histories of a ledger                                              *)
(* ===================================================================== *)

(** [grows self self']: the ledger [self'] is what [self] has become after
    any number of calls of [add_block] that ended, whether they returned a
    block or raised. *)
Inductive grows : Blockchain -> Blockchain -> Prop :=
| grows_refl (self : Blockchain) : grows self self
| grows_step (self mid self' : Blockchain)
    (fuel : nat) (now payload : value) (w w' : World) (r : outcome Block) :
    grows self mid ->
    add_block fuel now payload mid w = Some (r, self', w') ->
    grows self self'.

(** [session self w]: a process constructed the ledger and then called
    [add_block] any number of times, each call starting in the world the
    previous one left; [self] and [w] are the ledger and the world now. *)
Inductive session : Blockchain -> World -> Prop :=
| session_init (path : string) (d : Z) (now : value) (w : World)
    (self : Blockchain) (w' : World) :
    init path d now w = Some (self, w') ->
    session self w'
| session_add (self : Blockchain) (w : World)
    (fuel : nat) (now payload : value)
    (r : outcome Block) (self' : Blockchain) (w' : World) :
    session self w ->
    add_block fuel now payload self w = Some (r, self', w') ->
    session self' w'.

(** The four keys that [load_chain] subscripts, in the order it reads
    them. *)
Definition required_keys : list string :=
  ["index"; "timestamp"; "data"; "previous_hash"]%string.

(** The first required key that a record lacks. *)
Definition first_missing (d : list (string * value)) : option string :=
  List.find (fun k => match lookup k d with Some _ => false | None => true end)
            required_keys.

(** [reloads self w]: constructing a ledger from the world [w] would load
    the chain that [self] holds. *)
Definition reloads (self : Blockchain) (w : World) : Prop :=
  forall (d : Z) (now : value),
    init (persist_file self) d now w
    = Some (mkBlockchain (chain self) d (persist_file self), w).

(** The second block of [sealed_pair] rewritten with another payload and
    counter 0, and its digest recomputed: this digest starts with 1. *)
Definition rewritten1 : Block :=
  Block_init 1 (VFloat "1700000001.5")
    (VDict [("product_id", VStr "P1"); ("stage", VStr "Delivered")])
    genesis_digest 0.

(** A file whose second record has lost its "previous_hash". *)
Definition torn_world : World :=
  mkWorld
    {["chain.json" :=
        Json (VList (List.map block_record [Block_init 0 (VFloat "1700000000.0")
                                              genesis_data "0" 0]
                     ++ VDict [("index", VInt 1);
                               ("timestamp", VFloat "1700000001.5");
                               ("data", VDict [("stage", VStr "Created")]);
                               ("nonce", VInt 6)]
                     :: []))]}
    ∅ [].




(* ===================================================================== *)
(** ** ASCII text                                                         *)
(* ===================================================================== *)

(** The printable ASCII characters, from the space to the tilde. *)
Definition printable (c : ascii) : Prop :=
  32 <= Z.of_N (N_of_ascii c) <= 126.

Definition ascii_text (s : string) : Prop :=
  Forall printable (list_ascii_of_string s).

(** Every float inside the value has an ASCII [repr] (as every [repr] of a
    Python float has). *)
Fixpoint floats_ascii (v : value) : Prop :=
  match v with
  | VFloat r => ascii_text r
  | VList elems =>
      (fix all (l : list value) : Prop :=
         match l with
         | [] => True
         | x :: l' => floats_ascii x /\ all l'
         end) elems
  | VDict items =>
      (fix all (l : list (string * value)) : Prop :=
         match l with
         | [] => True
         | kv :: l' => floats_ascii (snd kv) /\ all l'
         end) items
  | _ => True
  end.

(* ===================================================================== *)
(** ** Facts about the digest text                                        *)
(* ===================================================================== *)

Section DigestText.

(** A hexdigest has 64 characters, whatever was hashed. *)
Lemma hexdigest_length (s : string) :
  String.length (Sha256.hexdigest s) = 64%nat.
Proof. reflexivity. Qed.

Lemma zeros_length (d : Z) : String.length (zeros d) = Z.to_nat d.
Proof.
  unfold zeros. induction (Z.to_nat d) as [|n IH]; simpl; [reflexivity|].
  now rewrite IH.
Qed.

Lemma prefix_length (p s : string) :
  String.prefix p s = true -> (String.length p <= String.length s)%nat.
Proof.
  revert s. induction p as [|c p IH]; intros s H; simpl; [lia|].
  destruct s as [|c' s]; simpl in H; [discriminate|].
  destruct (Ascii.ascii_dec c c'); [|discriminate].
  apply IH in H. simpl. lia.
Qed.

(** No digest starts with more than 64 zeros. *)
Lemma meets_beyond_digest (d : Z) (s : string) :
  64 < d -> meets d (Sha256.hexdigest s) = false.
Proof.
  intros Hd. destruct (meets d (Sha256.hexdigest s)) eqn:E; [|reflexivity].
  apply prefix_length in E. rewrite zeros_length, hexdigest_length in E. lia.
Qed.

(** Every digest starts with no zeros at all. *)
Lemma meets_nonpositive (d : Z) (s : string) : d <= 0 -> meets d s = true.
Proof.
  intros Hd. unfold meets, zeros.
  replace (Z.to_nat d) with 0%nat by lia. simpl. now destruct s.
Qed.

End DigestText.

(* ===================================================================== *)
(** ** sort_keys does not see the insertion order                         *)
(* ===================================================================== *)

Section SortKeys.

Lemma ascii_compare_refl (c : ascii) : Ascii.compare c c = Eq.
Proof. unfold Ascii.compare. apply N.compare_refl. Qed.

Lemma string_leb_refl (s : string) : String.leb s s = true.
Proof.
  unfold String.leb. induction s as [|c s IH]; simpl; [reflexivity|].
  now rewrite ascii_compare_refl.
Qed.

Lemma string_compare_trans_le (a b c : string) :
  String.compare a b <> Gt -> String.compare b c <> Gt -> String.compare a c <> Gt.
Proof.
  revert b c. induction a as [|x a IH]; intros [|y b] [|z c]; simpl; try congruence.
  unfold Ascii.compare.
  destruct (N.compare_spec (N_of_ascii x) (N_of_ascii y)) as [Exy|Lxy|Gxy];
    destruct (N.compare_spec (N_of_ascii y) (N_of_ascii z)) as [Eyz|Lyz|Gyz];
    try congruence; intros Hab Hbc.
  - rewrite Exy, Eyz, N.compare_refl. eauto.
  - rewrite Exy. now apply N.compare_lt_iff in Lyz as ->.
  - rewrite <- Eyz. now apply N.compare_lt_iff in Lxy as ->.
  - assert (H : (N_of_ascii x < N_of_ascii z)%N) by lia.
    now apply N.compare_lt_iff in H as ->.
Qed.

Lemma string_leb_trans (a b c : string) :
  String.leb a b = true -> String.leb b c = true -> String.leb a c = true.
Proof.
  unfold String.leb. intros Hab Hbc.
  pose proof (string_compare_trans_le a b c) as H.
  destruct (String.compare a b), (String.compare b c), (String.compare a c);
    try reflexivity; try discriminate; exfalso; apply H; congruence.
Qed.

Context {A : Type}.
Implicit Types (x y : string * A) (l : list (string * A)).

(** Two insertions with different keys commute. *)
Lemma insert_item_comm x y l :
  fst x <> fst y ->
  insert_item x (insert_item y l) = insert_item y (insert_item x l).
Proof.
  intros Hne. induction l as [|z l IH]; simpl.
  - destruct (String.leb (fst x) (fst y)) eqn:Exy,
             (String.leb (fst y) (fst x)) eqn:Eyx; try reflexivity.
    + exfalso. apply Hne. now apply String.leb_antisym.
    + destruct (String.leb_total (fst x) (fst y)); congruence.
  - destruct (String.leb (fst x) (fst z)) eqn:Exz,
             (String.leb (fst y) (fst z)) eqn:Eyz; simpl;
      rewrite ?Exz, ?Eyz.
    + destruct (String.leb (fst x) (fst y)) eqn:Exy,
               (String.leb (fst y) (fst x)) eqn:Eyx; try reflexivity.
      * exfalso. apply Hne. now apply String.leb_antisym.
      * destruct (String.leb_total (fst x) (fst y)); congruence.
    + destruct (String.leb (fst y) (fst x)) eqn:Eyx; [|reflexivity].
      pose proof (string_leb_trans _ _ _ Eyx Exz). congruence.
    + destruct (String.leb (fst x) (fst y)) eqn:Exy; [|reflexivity].
      pose proof (string_leb_trans _ _ _ Exy Eyz). congruence.
    + now rewrite IH.
Qed.

(** The sorted items depend on the set of items only. *)
Lemma sort_items_perm l1 l2 :
  dict_ok l1 -> Permutation l1 l2 -> sort_items l1 = sort_items l2.
Proof.
  intros Hok Hperm. induction Hperm as [|x l l' _ IH|x y l|l l' l'' H1 IH1 H2 IH2].
  - reflexivity.
  - simpl. rewrite IH; [reflexivity|]. now inversion Hok.
  - simpl. apply insert_item_comm.
    unfold dict_ok in Hok. simpl in Hok. inversion Hok as [|? ? Hnin _]; subst.
    intros E. apply Hnin. rewrite <- E. constructor.
  - rewrite IH1 by assumption. apply IH2.
    unfold dict_ok in *. now rewrite <- (Permutation_map fst H1).
Qed.

End SortKeys.

(* ===================================================================== *)
(** ** Block.compute_hash                                                 *)
(* ===================================================================== *)

Section ComputeHash.

Lemma dumps_dict_perm (items1 items2 : list (string * value)) :
  dict_ok items1 -> Permutation items1 items2 ->
  dumps (VDict items1) = dumps (VDict items2).
Proof.
  intros Hok Hperm. simpl.
  set (render := fun kv : string * value => (fst kv, dumps (snd kv))).
  assert (E : sort_items (List.map render items1) = sort_items (List.map render items2)).
  { apply sort_items_perm.
    - unfold dict_ok in *. now rewrite map_map.
    - now apply Permutation_map. }
  now rewrite E.
Qed.

(** The hashed text mentions the payload through its rendering only. *)
Lemma block_string_ext (b1 b2 : Block) :
  index b1 = index b2 -> dumps (timestamp b1) = dumps (timestamp b2) ->
  dumps (data b1) = dumps (data b2) ->
  previous_hash b1 = previous_hash b2 -> nonce b1 = nonce b2 ->
  block_string b1 = block_string b2.
Proof.
  intros Hi Ht Hd Hp Hn. unfold block_string.
  change (dumps (VDict ?items)) with
    ("{" ++ join ", " (List.map member (sort_items
       (List.map (fun kv => (fst kv, dumps (snd kv))) items))) ++ "}")%string.
  cbv [List.map fst snd]. now rewrite Hi, Ht, Hd, Hp, Hn.
Qed.

Lemma compute_hash_set_hash (h : string) (b : Block) :
  compute_hash (set_hash h b) = compute_hash b.
Proof. reflexivity. Qed.


End ComputeHash.

(** C8. Digest canonicalization: two blocks that agree on index, timestamp,
    previous digest and seal counter, and whose payloads are dicts holding
    the same key/value pairs in a different insertion order, have the same
    digest. *)
Theorem compute_hash_insertion_order
    (b1 b2 : Block) (items1 items2 : list (string * value)) :
  index b1 = index b2 ->
  timestamp b1 = timestamp b2 ->
  previous_hash b1 = previous_hash b2 ->
  nonce b1 = nonce b2 ->
  data b1 = VDict items1 ->
  data b2 = VDict items2 ->
  dict_ok items1 ->
  Permutation items1 items2 ->
  compute_hash b1 = compute_hash b2.
Proof.
  intros Hi Ht Hp Hn Hd1 Hd2 Hok Hperm.
  unfold compute_hash. f_equal.
  apply block_string_ext; try assumption.
  - now rewrite Ht.
  - rewrite Hd1, Hd2. now apply dumps_dict_perm.
Qed.

(** Two blocks that differ in the insertion order of their payload only. *)
Lemma compute_hash_insertion_order_witness :
  let items1 := [("product_id", VStr "P1"); ("stage", VStr "Created")] in
  let items2 := [("stage", VStr "Created"); ("product_id", VStr "P1")] in
  let b1 := Block_init 1 (VFloat "1700000001.5") (VDict items1) genesis_digest 6 in
  let b2 := Block_init 1 (VFloat "1700000001.5") (VDict items2) genesis_digest 6 in
  index b1 = index b2 /\
  timestamp b1 = timestamp b2 /\
  previous_hash b1 = previous_hash b2 /\
  nonce b1 = nonce b2 /\
  data b1 = VDict items1 /\
  data b2 = VDict items2 /\
  dict_ok items1 /\
  Permutation items1 items2 /\
  compute_hash b1 = compute_hash b2.
Proof.
  intros items1 items2 b1 b2.
  assert (H1 : index b1 = index b2) by reflexivity.
  assert (H2 : timestamp b1 = timestamp b2) by reflexivity.
  assert (H3 : previous_hash b1 = previous_hash b2) by reflexivity.
  assert (H4 : nonce b1 = nonce b2) by reflexivity.
  assert (H5 : data b1 = VDict items1) by reflexivity.
  assert (H6 : data b2 = VDict items2) by reflexivity.
  assert (H7 : dict_ok items1).
  { unfold dict_ok. cbn [List.map fst items1].
    apply NoDup_cons. split; [|apply NoDup_singleton].
    intros Hin. apply elem_of_cons in Hin as [Heq|Hin]; [discriminate Heq|inversion Hin]. }
  assert (H8 : Permutation items1 items2) by apply perm_swap.
  exact (conj H1 (conj H2 (conj H3 (conj H4 (conj H5 (conj H6 (conj H7 (conj H8
    (compute_hash_insertion_order b1 b2 items1 items2 H1 H2 H3 H4 H5 H6 H7 H8))))))))).
Defined.

(* ===================================================================== *)
(** ** Blockchain.proof_of_work                                           *)
(* ===================================================================== *)

Section ProofOfWork.

Lemma set_nonce_set_nonce (n m : Z) (b : Block) :
  set_nonce n (set_nonce m b) = set_nonce n b.
Proof. reflexivity. Qed.

Lemma set_nonce_same (b : Block) : set_nonce (nonce b) b = b.
Proof. now destruct b. Qed.

(** The first index at which a boolean predicate holds. *)
Lemma first_hit (P : nat -> bool) (n : nat) :
  P n = true ->
  exists k, (k <= n)%nat /\ P k = true /\ forall j, (j < k)%nat -> P j = false.
Proof.
  revert P. induction n as [|n IH]; intros P Hn.
  - exists 0%nat. repeat split; [lia|assumption|lia].
  - destruct (P 0%nat) eqn:E0.
    + exists 0%nat. repeat split; [lia|assumption|lia].
    + destruct (IH (fun j => P (S j)) Hn) as (k & Hk & Hhit & Hlow).
      exists (S k). repeat split; [lia|assumption|].
      intros [|j] Hj; [assumption|]. apply Hlow. lia.
Qed.

Variable d : Z.

Lemma tried_next (b : Block) (k : nat) :
  tried (set_nonce (nonce b + 1) b) k = tried b (S k).
Proof.
  unfold tried. rewrite set_nonce_set_nonce.
  replace (nonce (set_nonce (nonce b + 1) b) + Z.of_nat k)
    with (nonce b + Z.of_nat (S k)); [reflexivity|].
  cbn [nonce set_nonce]. lia.
Qed.

Lemma tried_first (b : Block) : tried b 0 = b.
Proof. unfold tried. simpl. rewrite Z.add_0_r. apply set_nonce_same. Qed.

(** The loop stops at the first counter that qualifies, given fuel for
    the tests before it and its own. *)
Lemma pow_loop_first (k : nat) : forall (b : Block) (fuel : nat),
  (forall j, (j < k)%nat -> meets d (compute_hash (tried b j)) = false) ->
  meets d (compute_hash (tried b k)) = true ->
  (k < fuel)%nat ->
  pow_loop fuel d b (compute_hash b)
  = Some (set_hash (compute_hash (tried b k)) (tried b k)).
Proof.
  induction k as [|k IH]; intros b fuel Hlow Hhit Hfuel;
    (destruct fuel as [|fuel]; [lia|]); simpl.
  - rewrite tried_first in Hhit |- *. now rewrite Hhit.
  - pose proof (Hlow 0%nat ltac:(lia)) as H0. rewrite tried_first in H0.
    rewrite H0, <- tried_next. apply IH.
    + intros j Hj. rewrite tried_next. apply Hlow. lia.
    + now rewrite tried_next.
    + lia.
Qed.

(** With no counter that qualifies, the loop outlives any fuel. *)
Lemma pow_loop_starves (fuel : nat) : forall (b : Block),
  (forall k, meets d (compute_hash (tried b k)) = false) ->
  pow_loop fuel d b (compute_hash b) = None.
Proof.
  induction fuel as [|fuel IH]; intros b Hnone; simpl; [reflexivity|].
  pose proof (Hnone 0%nat) as H0. rewrite tried_first in H0. rewrite H0.
  apply IH. intros k. rewrite tried_next. apply Hnone.
Qed.

(** Whatever the loop returns is a block whose stored digest is its
    recomputed digest, and that digest qualifies. *)
Lemma pow_loop_sealed (fuel : nat) : forall (b sealed : Block),
  pow_loop fuel d b (compute_hash b) = Some sealed ->
  hash sealed = compute_hash sealed /\ meets d (hash sealed) = true.
Proof.
  induction fuel as [|fuel IH]; intros b sealed; simpl; [discriminate|].
  destruct (meets d (compute_hash b)) eqn:E.
  - intros [= <-]. simpl. split; [reflexivity|assumption].
  - apply IH.
Qed.

End ProofOfWork.

(** A difficulty above 64 can never be met: sealing does not end. *)
Lemma proof_of_work_starves (fuel : nat) (self : Blockchain) (b : Block) :
  64 < difficulty self -> proof_of_work fuel self b = None.
Proof.
  intros Hd. apply pow_loop_starves. intros k. now apply meets_beyond_digest.
Qed.

Lemma proof_of_work_sealed (fuel : nat) (self : Blockchain) (b sealed : Block) :
  proof_of_work fuel self b = Some sealed ->
  hash sealed = compute_hash sealed /\ meets (difficulty self) (hash sealed) = true.
Proof. apply pow_loop_sealed. Qed.

(** The sealer finds the least qualifying counter at or above the one it
    starts from, whenever one exists. *)
Lemma proof_of_work_first (self : Blockchain) (b : Block) (n : Z) :
  nonce b <= n ->
  meets (difficulty self) (compute_hash (set_nonce n b)) = true ->
  exists k : nat,
    nonce b + Z.of_nat k <= n /\
    meets (difficulty self) (compute_hash (tried b k)) = true /\
    (forall j, (j < k)%nat ->
       meets (difficulty self) (compute_hash (tried b j)) = false) /\
    (forall fuel, (k < fuel)%nat ->
       proof_of_work fuel self b
       = Some (set_hash (compute_hash (tried b k)) (tried b k))).
Proof.
  intros Hle Hhit.
  destruct (first_hit (fun j => meets (difficulty self) (compute_hash (tried b j)))
              (Z.to_nat (n - nonce b))) as (k & Hk & Hkhit & Hlow).
  { unfold tried. now replace (nonce b + Z.of_nat (Z.to_nat (n - nonce b))) with n by lia. }
  exists k. repeat split; [lia|assumption|assumption|].
  intros fuel Hfuel. now apply pow_loop_first.
Qed.

Lemma proof_of_work_zero (fuel : nat) (self : Blockchain) (b : Block) :
  difficulty self <= 0 ->
  proof_of_work (S fuel) self b = Some (set_hash (compute_hash b) b).
Proof.
  intros Hd. unfold proof_of_work. simpl. now rewrite meets_nonpositive.
Qed.

(** C4 (as amended). Proof-of-work correctness: for a candidate block whose
    seal counter starts at 0 and a difficulty d >= 0 that some counter
    n >= 0 meets, the sealer ends (every large enough bound on its loop
    gives the same result), leaves all fields but the counter and the
    digest as they were, stops at the smallest non-negative counter whose
    digest starts with d zeros, and stores that digest; for d = 0 the first
    candidate is accepted and the counter stays 0. *)
Theorem proof_of_work_smallest (self : Blockchain) (b : Block) (n : Z) :
  nonce b = 0 ->
  0 <= difficulty self ->
  0 <= n ->
  meets (difficulty self) (compute_hash (set_nonce n b)) = true ->
  exists (fuel : nat) (sealed : Block),
    (forall fuel', (fuel <= fuel')%nat -> proof_of_work fuel' self b = Some sealed) /\
    0 <= nonce sealed <= n /\
    sealed = set_hash (compute_hash (set_nonce (nonce sealed) b))
                      (set_nonce (nonce sealed) b) /\
    hash sealed = compute_hash sealed /\
    meets (difficulty self) (hash sealed) = true /\
    (forall m, 0 <= m < nonce sealed ->
       meets (difficulty self) (compute_hash (set_nonce m b)) = false) /\
    (difficulty self = 0 ->
       nonce sealed = 0 /\ proof_of_work 1 self b = Some sealed).
Proof.
  intros Hstart Hd Hn Hhit.
  destruct (proof_of_work_first self b n) as (k & Hk & Hkhit & Hlow & Hrun);
    [lia|assumption|].
  unfold tried in *. rewrite Hstart in *. simpl in Hk, Hkhit, Hlow, Hrun.
  exists (S k), (set_hash (compute_hash (set_nonce (Z.of_nat k) b))
                          (set_nonce (Z.of_nat k) b)).
  split; [intros fuel' Hfuel; apply Hrun; lia|].
  split; [simpl; lia|].
  split; [reflexivity|].
  split; [reflexivity|].
  split; [exact Hkhit|].
  split.
  - intros m Hm. simpl in Hm.
    replace m with (Z.of_nat (Z.to_nat m)) by lia. apply Hlow. lia.
  - intros Hzero.
    assert (k = 0)%nat as ->.
    { destruct k as [|k]; [reflexivity|].
      pose proof (Hlow 0%nat ltac:(lia)) as H0.
      rewrite meets_nonpositive in H0; [discriminate|lia]. }
    split; [reflexivity|]. apply Hrun. lia.
Qed.

Lemma proof_of_work_smallest_witness :
  let self := mkBlockchain [] 1 "chain.json" in
  nonce candidate1 = 0 /\
  0 <= difficulty self /\
  0 <= 6 /\
  meets (difficulty self) (compute_hash (set_nonce 6 candidate1)) = true /\
  exists (fuel : nat) (sealed : Block),
    (forall fuel', (fuel <= fuel')%nat ->
       proof_of_work fuel' self candidate1 = Some sealed) /\
    0 <= nonce sealed <= 6 /\
    sealed = set_hash (compute_hash (set_nonce (nonce sealed) candidate1))
                      (set_nonce (nonce sealed) candidate1) /\
    hash sealed = compute_hash sealed /\
    meets (difficulty self) (hash sealed) = true /\
    (forall m, 0 <= m < nonce sealed ->
       meets (difficulty self) (compute_hash (set_nonce m candidate1)) = false) /\
    (difficulty self = 0 ->
       nonce sealed = 0 /\ proof_of_work 1 self candidate1 = Some sealed).
Proof.
  intros self.
  assert (H1 : nonce candidate1 = 0) by reflexivity.
  assert (H2 : 0 <= difficulty self) by (simpl; lia).
  assert (H3 : 0 <= 6) by lia.
  assert (H4 : meets (difficulty self) (compute_hash (set_nonce 6 candidate1)) = true)
    by (vm_compute; reflexivity).
  exact (conj H1 (conj H2 (conj H3 (conj H4
           (proof_of_work_smallest self candidate1 6 H1 H2 H3 H4))))).
Defined.

(** C4 (as stated) fails: at difficulty 65 no counter qualifies, and the
    sealer returns nothing however long it runs. *)
Lemma proof_of_work_unmet_difficulty :
  ~ exists (fuel : nat) (sealed : Block),
      proof_of_work fuel (mkBlockchain [] 65 "chain.json") candidate1 = Some sealed.
Proof.
  intros (fuel & sealed & H).
  rewrite proof_of_work_starves in H; [discriminate|].
  cbn [difficulty]. lia.
Qed.

(* ===================================================================== *)
(** ** Blockchain.create_genesis_block                                    *)
(* ===================================================================== *)

(** The genesis block is what [Block.__init__] builds: its counter is 0 and
    its digest is computed once; the ledger's difficulty plays no part. *)
Lemma create_genesis_block_chain (now : value) (self : Blockchain) (w : World) :
  chain (fst (create_genesis_block now self w))
  = [Block_init 0 now genesis_data "0" 0].
Proof. reflexivity. Qed.

Lemma init_fresh (path : string) (d : Z) (now : value) (w : World) :
  fs w !! path = None ->
  init path d now w
  = Some (create_genesis_block now (mkBlockchain [] d path) w).
Proof. intros H. unfold init. now rewrite H. Qed.

(** C3 (the code at the failing input). A fresh ledger with difficulty 1,
    created at time 1700000000.0: the genesis block has index 0, the fixed
    payload, the sentinel previous digest and counter 0, and its digest
    starts with 8, not with a zero: the block was not sealed. *)
Theorem genesis_not_sealed :
  exists (self : Blockchain) (w : World) (genesis : Block),
    init "chain.json" 1 (VFloat "1700000000.0") fresh = Some (self, w) /\
    difficulty self = 1 /\
    chain self = [genesis] /\
    index genesis = 0 /\
    data genesis = genesis_data /\
    previous_hash genesis = "0"%string /\
    nonce genesis = 0 /\
    hash genesis = genesis_digest /\
    meets (difficulty self) (hash genesis) = false.
Proof.
  rewrite init_fresh by reflexivity.
  do 3 eexists. split; [reflexivity|].
  repeat split; vm_compute; reflexivity.
Qed.

(* ===================================================================== *)
(** ** Blockchain.is_chain_valid                                          *)
(* ===================================================================== *)

Section Validation.

Implicit Types (c : list Block) (i : nat).

Lemma valid_loop_true c (range : list nat) :
  valid_loop c range = true ->
  forall i, i ∈ range -> linked c i /\ consistent c i.
Proof.
  induction range as [|j range IH]; cbn [valid_loop]; intros H i Hi.
  - inversion Hi.
  - destruct (c !! j) as [curr|] eqn:Ecurr; [|discriminate].
    destruct (c !! (j - 1)%nat) as [prev|] eqn:Eprev; [|discriminate].
    destruct (String.eqb_spec (previous_hash curr) (hash prev)) as [El|]; [|discriminate].
    destruct (String.eqb_spec (compute_hash curr) (hash curr)) as [Es|]; [|discriminate].
    cbn [negb] in H. apply elem_of_cons in Hi as [->|Hi]; [|now apply IH].
    split; [exists curr, prev|exists curr]; auto.
Qed.

Lemma valid_loop_false c (range : list nat) :
  (forall i, i ∈ range -> (1 <= i < List.length c)%nat) ->
  valid_loop c range = false ->
  exists i, i ∈ range /\ fails c i.
Proof.
  induction range as [|j range IH]; cbn [valid_loop]; intros Hin H; [discriminate|].
  destruct (Hin j) as [Hj1 Hj2]; [left|].
  destruct (lookup_lt_is_Some_2 c j) as [curr Ecurr]; [lia|].
  destruct (lookup_lt_is_Some_2 c (j - 1)) as [prev Eprev]; [lia|].
  rewrite Ecurr, Eprev in H.
  destruct (String.eqb_spec (previous_hash curr) (hash prev)) as [El|Nl].
  - destruct (String.eqb_spec (compute_hash curr) (hash curr)) as [Es|Ns].
    + cbn [negb] in H. destruct IH as (i & Hi & Hf); [|assumption|].
      * intros i Hi. apply Hin. now right.
      * exists i. split; [now right|assumption].
    + exists j. split; [left|]. exists curr, prev. auto.
  - exists j. split; [left|]. exists curr, prev. auto.
Qed.

Lemma fails_not_valid c (range : list nat) i :
  i ∈ range -> fails c i -> valid_loop c range = false.
Proof.
  intros Hi (curr & prev & Ecurr & Eprev & Hbad).
  destruct (valid_loop c range) eqn:E; [|reflexivity].
  destruct (valid_loop_true c range E i Hi)
    as [(curr' & prev' & E1 & E2 & Hl) (curr'' & E3 & Hs)].
  rewrite Ecurr in E1, E3. rewrite Eprev in E2.
  injection E1 as <-. injection E2 as <-. injection E3 as <-.
  destruct Hbad; contradiction.
Qed.

Lemma in_range c i :
  i ∈ seq 1 (List.length c - 1) <-> (1 <= i < List.length c)%nat.
Proof. rewrite elem_of_seq. lia. Qed.

(** The loop passes exactly when every position from 1 on is linked and
    consistent. *)
Lemma is_chain_valid_true (self : Blockchain) :
  is_chain_valid self = true <->
  forall i, (1 <= i < List.length (chain self))%nat ->
    linked (chain self) i /\ consistent (chain self) i.
Proof.
  unfold is_chain_valid. split.
  - intros H i Hi. apply (valid_loop_true _ _ H). now apply in_range.
  - intros H. destruct (valid_loop _ _) eqn:E; [reflexivity|].
    apply valid_loop_false in E as (i & Hi & curr & prev & E1 & E2 & Hbad).
    + apply in_range in Hi.
      destruct (H i Hi) as [(curr' & prev' & E1' & E2' & Hl) (curr'' & E3 & Hs)].
      rewrite E1 in E1', E3. rewrite E2 in E2'.
      injection E1' as <-. injection E2' as <-. injection E3 as <-.
      destruct Hbad; contradiction.
    + intros i Hi. now apply in_range.
Qed.

Lemma is_chain_valid_false (self : Blockchain) :
  is_chain_valid self = false <->
  exists i, (1 <= i)%nat /\ fails (chain self) i.
Proof.
  unfold is_chain_valid. split.
  - intros H. apply valid_loop_false in H as (i & Hi & Hf).
    + apply in_range in Hi. exists i. split; [lia|assumption].
    + intros i Hi. now apply in_range.
  - intros (i & Hi & Hf). apply fails_not_valid with i; [|assumption].
    apply in_range. destruct Hf as (curr & _ & E & _).
    apply lookup_lt_Some in E. lia.
Qed.

End Validation.

(** C5. Validation semantics: [is_chain_valid] returns True on an empty
    chain and on a chain that holds the genesis block only; it returns
    False exactly when some position i >= 1 fails linkage or
    self-consistency; and the difficulty predicate is never looked at: the
    verdict is the same under any difficulty, and a chain whose digests do
    not meet the ledger's difficulty is valid all the same. *)
Theorem is_chain_valid_semantics :
  (forall (d : Z) (path : string), is_chain_valid (mkBlockchain [] d path) = true) /\
  (forall (genesis : Block) (d : Z) (path : string),
     is_chain_valid (mkBlockchain [genesis] d path) = true) /\
  (forall self : Blockchain,
     is_chain_valid self = false <->
     exists (i : nat) (curr prev : Block),
       (1 <= i)%nat /\
       chain self !! i = Some curr /\ chain self !! (i - 1)%nat = Some prev /\
       (previous_hash curr <> hash prev \/ compute_hash curr <> hash curr)) /\
  (forall (self : Blockchain) (d : Z),
     is_chain_valid (mkBlockchain (chain self) d (persist_file self))
     = is_chain_valid self) /\
  (is_chain_valid unsealed_pair = true /\
   exists b : Block,
     chain unsealed_pair !! 1%nat = Some b /\
     meets (difficulty unsealed_pair) (hash b) = false).
Proof.
  split; [reflexivity|]. split; [reflexivity|]. split; [|split].
  - intros self. rewrite is_chain_valid_false. unfold fails. split.
    + intros (i & Hi & curr & prev & H). exists i, curr, prev. tauto.
    + intros (i & curr & prev & Hi & H). exists i. split; [assumption|].
      exists curr, prev. tauto.
  - reflexivity.
  - split; [vm_compute; reflexivity|].
    eexists. split; [reflexivity|]. vm_compute. reflexivity.
Qed.

(* ===================================================================== *)
(** ** save_chain, load_chain, __init__                                   *)
(* ===================================================================== *)

Section Persistence.

Lemma load_item_block_record (b : Block) : load_item (block_record b) = ret b.
Proof. destruct b. reflexivity. Qed.

Lemma load_items_block_records (c : list Block) :
  load_items (List.map block_record c) = ret c.
Proof.
  induction c as [|b c IH]; [reflexivity|].
  cbn [List.map load_items]. rewrite load_item_block_record, IH. reflexivity.
Qed.

(** Loading a document that [to_list] produced gives back the chain it
    was produced from, stored digests included. *)
Lemma load_chain_to_list (self donor : Blockchain) (w : World) :
  fs w !! persist_file self = Some (Json (to_list donor)) ->
  load_chain self w = ret (set_chain (chain donor) self).
Proof.
  intros H. unfold load_chain. rewrite H. unfold to_list.
  cbn [iterate bind ret]. rewrite load_items_block_records. reflexivity.
Qed.

Lemma writable_no_fault (path : string) (w : World) :
  path ∉ readonly w <-> faults w !! path = None.
Proof. unfold readonly. apply not_elem_of_dom. Qed.

Lemma readonly_fault (path : string) (w : World) :
  path ∈ readonly w <-> exists kind, faults w !! path = Some kind.
Proof. unfold readonly. apply elem_of_dom. Qed.

Lemma save_chain_writable (self : Blockchain) (w : World) :
  persist_file self ∉ readonly w ->
  save_chain self w
  = mkWorld (<[persist_file self := Json (to_list self)]> (fs w))
            (faults w) (stdout w).
Proof.
  intros H. apply writable_no_fault in H. unfold save_chain. now rewrite H.
Qed.

(** A failed write, of either kind: the error is printed, and the file is
    what it was when it could not be opened, and not JSON when it could. *)
Lemma save_chain_fault (self : Blockchain) (w : World) (kind : fault) :
  faults w !! persist_file self = Some kind ->
  save_chain self w
  = mkWorld (match kind with
             | OpenFails => fs w
             | WriteFails => <[persist_file self := NotJson]> (fs w)
             end)
            (faults w) (stdout w ++ [ErrorSavingChain OSError]).
Proof. intros H. unfold save_chain. rewrite H. now destruct kind. Qed.

Lemma init_loaded (path : string) (d : Z) (now : value) (w : World)
    (donor : Blockchain) :
  fs w !! path = Some (Json (to_list donor)) ->
  init path d now w = Some (mkBlockchain (chain donor) d path, w).
Proof.
  intros H. unfold init. rewrite H.
  rewrite (load_chain_to_list _ donor) by exact H. reflexivity.
Qed.

Lemma init_raised (path : string) (d : Z) (now : value) (w : World) (e : exn) :
  load_chain (mkBlockchain [] d path) w = Some (Raises e) ->
  init path d now w
  = Some (create_genesis_block now (mkBlockchain [] d path) w).
Proof.
  intros H. unfold init. rewrite H. now destruct (fs w !! path).
Qed.

(** A file that is not JSON makes the ledger start over from a fresh
    genesis block, and a genesis-only chain passes validation. *)
Lemma init_not_json (path : string) (d : Z) (now : value) (w : World) :
  fs w !! path = Some NotJson ->
  exists (self : Blockchain) (w' : World),
    init path d now w = Some (self, w') /\
    chain self = [Block_init 0 now genesis_data "0" 0] /\
    is_chain_valid self = true.
Proof.
  intros H. rewrite (init_raised path d now w JSONDecodeError).
  - do 2 eexists. split; [reflexivity|]. split; reflexivity.
  - unfold load_chain. cbn [persist_file]. now rewrite H.
Qed.

End Persistence.

(** C6. Persistence round-trip: once a ledger has been persisted, a ledger
    constructed from the persisted file (whatever its difficulty and the
    time of construction) holds the same chain, so [is_chain_valid] and
    [get_all_events] give what they gave on the original. *)
Theorem persist_then_reload
    (self : Blockchain) (w : World) (d : Z) (now : value) :
  persist_file self ∉ readonly w ->
  exists reloaded : Blockchain,
    init (persist_file self) d now (save_chain self w)
    = Some (reloaded, save_chain self w) /\
    chain reloaded = chain self /\
    is_chain_valid reloaded = is_chain_valid self /\
    get_all_events reloaded = get_all_events self.
Proof.
  intros Hw. exists (mkBlockchain (chain self) d (persist_file self)).
  split; [|repeat split].
  apply init_loaded. rewrite save_chain_writable by assumption.
  cbn [fs]. apply lookup_insert_eq.
Qed.

Lemma persist_then_reload_witness :
  (persist_file sealed_pair ∉ readonly fresh) /\
  exists reloaded : Blockchain,
    init (persist_file sealed_pair) 2 (VFloat "1700000009.0")
         (save_chain sealed_pair fresh)
    = Some (reloaded, save_chain sealed_pair fresh) /\
    chain reloaded = chain sealed_pair /\
    is_chain_valid reloaded = is_chain_valid sealed_pair /\
    get_all_events reloaded = get_all_events sealed_pair.
Proof.
  assert (H : persist_file sealed_pair ∉ readonly fresh)
    by (apply writable_no_fault; reflexivity).
  exact (conj H (persist_then_reload sealed_pair fresh 2 (VFloat "1700000009.0") H)).
Defined.

(** C10. A persisted file that holds the empty JSON list: construction
    succeeds and leaves the world as it is, the chain is empty (no genesis
    block), [is_chain_valid] is True, [get_all_events] is empty, and the
    next [add_block] raises IndexError at [self.chain[-1]] instead of
    returning a block. *)
Theorem init_empty_list (path : string) (d : Z) (now : value) (w : World) :
  fs w !! path = Some (Json (VList [])) ->
  exists self : Blockchain,
    init path d now w = Some (self, w) /\
    chain self = [] /\
    is_chain_valid self = true /\
    get_all_events self = [] /\
    forall (fuel : nat) (now' payload : value) (w' : World),
      add_block fuel now' payload self w' = Some (Raises IndexError, self, w').
Proof.
  intros H. exists (mkBlockchain [] d path).
  split; [|repeat split].
  exact (init_loaded path d now w (mkBlockchain [] 0 "") H).
Qed.

Lemma init_empty_list_witness :
  fs empty_list_world !! "chain.json" = Some (Json (VList [])) /\
  exists self : Blockchain,
    init "chain.json" 2 (VFloat "1700000000.0") empty_list_world
    = Some (self, empty_list_world) /\
    chain self = [] /\
    is_chain_valid self = true /\
    get_all_events self = [] /\
    forall (fuel : nat) (now' payload : value) (w' : World),
      add_block fuel now' payload self w' = Some (Raises IndexError, self, w').
Proof.
  assert (H : fs empty_list_world !! "chain.json" = Some (Json (VList [])))
    by reflexivity.
  exact (conj H (init_empty_list "chain.json" 2 (VFloat "1700000000.0")
                   empty_list_world H)).
Defined.

(** C9 (as amended). Persistence error handling: when [load_chain] raises
    at construction time (the file cannot be opened, is not JSON, or lacks
    a field), the ledger is initialised with a fresh genesis block.  When
    writing the file fails, [save_chain] catches the error and prints it;
    the file is left as it was if it could not be opened, and is left
    without a JSON document if it was opened (and so emptied) before the
    write failed; no other file is touched.  An [add_block] whose sealing
    search ends then returns the new block to its caller as if nothing had
    happened: the block is in the chain in memory, and the file is in the
    state the failed write left. *)
Theorem persistence_errors
    (path : string) (d : Z) (now : value) (w : World) (e : exn)
    (self : Blockchain) (w1 : World) (kind : fault)
    (now1 payload : value) (prev : Block) (n : Z) :
  load_chain (mkBlockchain [] d path) w = Some (Raises e) ->
  faults w1 !! persist_file self = Some kind ->
  last (chain self) = Some prev ->
  0 <= n ->
  meets (difficulty self)
        (compute_hash
           (set_nonce n (Block_init (index prev + 1) now1 payload (hash prev) 0)))
  = true ->
  (exists (genesis_ledger : Blockchain) (w' : World),
     init path d now w = Some (genesis_ledger, w') /\
     chain genesis_ledger = [Block_init 0 now genesis_data "0" 0]) /\
  (fs (save_chain self w1) !! persist_file self
   = match kind with
     | OpenFails => fs w1 !! persist_file self
     | WriteFails => Some NotJson
     end /\
   (forall other : string,
      other <> persist_file self ->
      fs (save_chain self w1) !! other = fs w1 !! other) /\
   stdout (save_chain self w1) = stdout w1 ++ [ErrorSavingChain OSError]) /\
  (exists (fuel : nat) (block : Block) (self' : Blockchain) (w1' : World),
     (forall fuel', (fuel <= fuel')%nat ->
        add_block fuel' now1 payload self w1 = Some (Returns block, self', w1')) /\
     chain self' = chain self ++ [block] /\
     fs w1' !! persist_file self
     = match kind with
       | OpenFails => fs w1 !! persist_file self
       | WriteFails => Some NotJson
       end /\
     (forall other : string,
        other <> persist_file self -> fs w1' !! other = fs w1 !! other) /\
     stdout w1' = stdout w1 ++ [ErrorSavingChain OSError]).
Proof.
  intros Hload Hfault Hlast Hn Hhit.
  assert (Hsave : forall ledger : Blockchain,
            persist_file ledger = persist_file self ->
            fs (save_chain ledger w1) !! persist_file self
            = match kind with
              | OpenFails => fs w1 !! persist_file self
              | WriteFails => Some NotJson
              end /\
            (forall other : string,
               other <> persist_file self ->
               fs (save_chain ledger w1) !! other = fs w1 !! other) /\
            stdout (save_chain ledger w1) = stdout w1 ++ [ErrorSavingChain OSError]).
  { intros ledger Hp. rewrite (save_chain_fault ledger w1 kind) by now rewrite Hp.
    cbn [fs stdout]. rewrite Hp. destruct kind.
    - repeat split.
    - split; [apply lookup_insert_eq|]. split; [|reflexivity].
      intros other Hne. apply lookup_insert_ne. congruence. }
  split; [|split].
  - rewrite (init_raised path d now w e Hload).
    do 2 eexists. split; reflexivity.
  - now apply Hsave.
  - set (cand := Block_init (index prev + 1) now1 payload (hash prev) 0) in *.
    destruct (proof_of_work_first self cand n) as (k & _ & _ & _ & Hrun);
      [exact Hn|exact Hhit|].
    set (block := set_hash (compute_hash (tried cand k)) (tried cand k)) in *.
    exists (S k), block, (set_chain (chain self ++ [block]) self),
           (save_chain (set_chain (chain self ++ [block]) self) w1).
    split.
    + intros fuel' Hfuel. unfold add_block. rewrite Hlast. fold cand.
      rewrite Hrun by lia. reflexivity.
    + split; [reflexivity|]. now apply Hsave.
Qed.

Lemma easy_append :
  add_block 1 (VFloat "1700000001.5") (VDict [("stage", VStr "Created")])
            easy_ledger protected_world
  = Some (Returns easy_block,
          set_chain (chain easy_ledger ++ [easy_block]) easy_ledger,
          save_chain (set_chain (chain easy_ledger ++ [easy_block]) easy_ledger)
                     protected_world).
Proof.
  unfold add_block. cbn [easy_ledger chain last].
  rewrite proof_of_work_zero by (unfold easy_ledger; cbn [difficulty]; lia).
  change (hash (Block_init 0 (VFloat "1700000000.0") genesis_data "0" 0))
    with (compute_hash (mkBlock 0 (VFloat "1700000000.0") genesis_data "0" 0 "")).
  assert (E : compute_hash (mkBlock 0 (VFloat "1700000000.0") genesis_data "0" 0 "")
              = genesis_digest) by (vm_compute; reflexivity).
  rewrite E. reflexivity.
Defined.

Lemma persistence_errors_witness :
  let prev := Block_init 0 (VFloat "1700000000.0") genesis_data "0" 0 in
  let now1 := VFloat "1700000001.5" in
  let payload := VDict [("stage", VStr "Created")] in
  load_chain (mkBlockchain [] 2 "chain.json") protected_world
  = Some (Raises JSONDecodeError) /\
  faults full_disk_world !! persist_file easy_ledger = Some WriteFails /\
  last (chain easy_ledger) = Some prev /\
  0 <= 0 /\
  meets (difficulty easy_ledger)
        (compute_hash
           (set_nonce 0 (Block_init (index prev + 1) now1 payload (hash prev) 0)))
  = true /\
  (exists (genesis_ledger : Blockchain) (w' : World),
     init "chain.json" 2 (VFloat "1700000000.0") protected_world
     = Some (genesis_ledger, w') /\
     chain genesis_ledger
     = [Block_init 0 (VFloat "1700000000.0") genesis_data "0" 0]) /\
  (fs (save_chain easy_ledger full_disk_world) !! persist_file easy_ledger
   = Some NotJson /\
   (forall other : string,
      other <> persist_file easy_ledger ->
      fs (save_chain easy_ledger full_disk_world) !! other
      = fs full_disk_world !! other) /\
   stdout (save_chain easy_ledger full_disk_world)
   = stdout full_disk_world ++ [ErrorSavingChain OSError]) /\
  (exists (fuel : nat) (block : Block) (self' : Blockchain) (w1' : World),
     (forall fuel', (fuel <= fuel')%nat ->
        add_block fuel' now1 payload easy_ledger full_disk_world
        = Some (Returns block, self', w1')) /\
     chain self' = chain easy_ledger ++ [block] /\
     fs w1' !! persist_file easy_ledger = Some NotJson /\
     (forall other : string,
        other <> persist_file easy_ledger ->
        fs w1' !! other = fs full_disk_world !! other) /\
     stdout w1' = stdout full_disk_world ++ [ErrorSavingChain OSError]).
Proof.
  intros prev now1 payload.
  assert (H1 : load_chain (mkBlockchain [] 2 "chain.json") protected_world
               = Some (Raises JSONDecodeError)) by reflexivity.
  assert (H2 : faults full_disk_world !! persist_file easy_ledger = Some WriteFails)
    by reflexivity.
  assert (H3 : last (chain easy_ledger) = Some prev) by reflexivity.
  assert (H4 : 0 <= 0) by lia.
  assert (H5 : meets (difficulty easy_ledger)
                 (compute_hash
                    (set_nonce 0 (Block_init (index prev + 1) now1 payload
                                    (hash prev) 0)))
               = true) by (vm_compute; reflexivity).
  exact (conj H1 (conj H2 (conj H3 (conj H4 (conj H5
    (persistence_errors "chain.json" 2 (VFloat "1700000000.0") protected_world
       JSONDecodeError easy_ledger full_disk_world WriteFails now1 payload prev 0
       H1 H2 H3 H4 H5)))))).
Defined.

(** C9 (as stated) fails on its second half: with the ledger's file
    write-protected, [add_block] returns the new block; nothing is raised,
    and the file still holds what it held. *)
Lemma append_swallows_write_error :
  (persist_file easy_ledger ∈ readonly protected_world) /\
  exists (block : Block) (self' : Blockchain) (w' : World),
    add_block 1 (VFloat "1700000001.5") (VDict [("stage", VStr "Created")])
              easy_ledger protected_world
    = Some (Returns block, self', w') /\
    chain self' = chain easy_ledger ++ [block] /\
    fs w' = fs protected_world.
Proof.
  split; [apply readonly_fault; eexists; reflexivity|].
  do 3 eexists. split; [exact easy_append|]. split; [reflexivity|].
  rewrite (save_chain_fault _ _ OpenFails) by reflexivity. reflexivity.
Qed.

(* ===================================================================== *)
(** ** Blockchain.add_block                                               *)
(* ===================================================================== *)

Section Append.

(** Sealing touches the counter and the digest only. *)
Lemma pow_loop_fields (d : Z) (fuel : nat) : forall (b : Block) (h : string) (sealed : Block),
  pow_loop fuel d b h = Some sealed ->
  index sealed = index b /\ timestamp sealed = timestamp b /\
  data sealed = data b /\ previous_hash sealed = previous_hash b.
Proof.
  induction fuel as [|fuel IH]; intros b h sealed; cbn [pow_loop]; [discriminate|].
  destruct (meets d h).
  - intros [= <-]. repeat split.
  - intros H. apply IH in H. exact H.
Qed.

(** What [add_block] does on a non-empty chain once sealing has ended. *)
Lemma add_block_sealed (fuel : nat) (now payload : value)
    (self : Blockchain) (w : World) (prev sealed : Block) :
  last (chain self) = Some prev ->
  proof_of_work fuel self (Block_init (index prev + 1) now payload (hash prev) 0)
  = Some sealed ->
  add_block fuel now payload self w
  = Some (Returns sealed,
          set_chain (chain self ++ [sealed]) self,
          save_chain (set_chain (chain self ++ [sealed]) self) w).
Proof. intros Hlast Hpow. unfold add_block. now rewrite Hlast, Hpow. Qed.

Lemma add_block_inv (fuel : nat) (now payload : value)
    (self : Blockchain) (w : World) (block : Block) (self' : Blockchain) (w' : World) :
  add_block fuel now payload self w = Some (Returns block, self', w') ->
  exists prev,
    last (chain self) = Some prev /\
    proof_of_work fuel self (Block_init (index prev + 1) now payload (hash prev) 0)
    = Some block /\
    self' = set_chain (chain self ++ [block]) self /\
    w' = save_chain self' w.
Proof.
  unfold add_block. destruct (last (chain self)) as [prev|]; [|discriminate].
  destruct (proof_of_work fuel self _) as [sealed|] eqn:E; [|discriminate].
  intros [= <- <- <-]. exists prev. repeat split. exact E.
Qed.

End Append.

(** C2 (as amended). Append postcondition: on a non-empty chain, for any
    payload, whenever some seal counter meets the ledger's difficulty,
    [add_block] ends (every large enough bound on the sealer's loop gives
    the same result) and returns a block with the tail's index plus 1, the
    tail's digest as previous digest, the given payload and time, a counter
    searched upwards from 0, and a stored digest that is its recomputed
    digest and meets the difficulty.  The chain in memory is the old chain
    followed by that block, and the difficulty and the file of the ledger
    are unchanged.  When the file can be written, it then holds the whole
    chain: one record per block, in order, with the six fields of the
    block. *)
Theorem add_block_postcondition
    (self : Blockchain) (w : World) (now payload : value) (prev : Block) (n : Z) :
  last (chain self) = Some prev ->
  0 <= n ->
  meets (difficulty self)
        (compute_hash
           (set_nonce n (Block_init (index prev + 1) now payload (hash prev) 0)))
  = true ->
  exists (fuel : nat) (block : Block) (self' : Blockchain) (w' : World),
    (forall fuel', (fuel <= fuel')%nat ->
       add_block fuel' now payload self w = Some (Returns block, self', w')) /\
    index block = index prev + 1 /\
    timestamp block = now /\
    data block = payload /\
    previous_hash block = hash prev /\
    0 <= nonce block <= n /\
    (forall m, 0 <= m < nonce block ->
       meets (difficulty self)
             (compute_hash
                (set_nonce m (Block_init (index prev + 1) now payload (hash prev) 0)))
       = false) /\
    hash block = compute_hash block /\
    meets (difficulty self) (hash block) = true /\
    chain self' = chain self ++ [block] /\
    difficulty self' = difficulty self /\
    persist_file self' = persist_file self /\
    ((persist_file self ∉ readonly w) ->
     exists records : list value,
       fs w' !! persist_file self = Some (Json (VList records)) /\
       List.length records = S (List.length (chain self)) /\
       forall (k : nat) (b : Block),
         (chain self ++ [block]) !! k = Some b ->
         records !! k
         = Some (VDict [ ("index", VInt (index b));
                         ("timestamp", timestamp b);
                         ("data", data b);
                         ("previous_hash", VStr (previous_hash b));
                         ("nonce", VInt (nonce b));
                         ("hash", VStr (hash b)) ])).
Proof.
  intros Hlast Hn Hhit.
  set (cand := Block_init (index prev + 1) now payload (hash prev) 0) in *.
  destruct (proof_of_work_first self cand n) as (k & Hk & Hkhit & Hlow & Hrun);
    [exact Hn|exact Hhit|].
  unfold tried in *. change (nonce cand) with 0 in *.
  rewrite Z.add_0_l in *.
  set (block := set_hash (compute_hash (set_nonce (Z.of_nat k) cand))
                         (set_nonce (Z.of_nat k) cand)) in *.
  exists (S k), block, (set_chain (chain self ++ [block]) self),
         (save_chain (set_chain (chain self ++ [block]) self) w).
  split.
  { intros fuel' Hfuel. apply (add_block_sealed _ _ _ _ _ prev); [exact Hlast|].
    apply Hrun. lia. }
  do 4 (split; [reflexivity|]).
  split; [cbn [nonce set_hash set_nonce block]; lia|].
  split.
  { intros m Hm. cbn [nonce set_hash set_nonce block] in Hm.
    replace m with (Z.of_nat (Z.to_nat m)) by lia. apply Hlow. lia. }
  split; [reflexivity|].
  split; [exact Hkhit|].
  do 3 (split; [reflexivity|]).
  intros Hw. rewrite save_chain_writable by exact Hw.
  cbn [fs persist_file set_chain chain to_list].
  exists (List.map block_record (chain self ++ [block])).
  split; [apply lookup_insert_eq|].
  split; [rewrite length_map, length_app; cbn [List.length]; lia|].
  intros i b Hb.
  change (List.map block_record ?l) with (block_record <$> l).
  now rewrite list_lookup_fmap, Hb.
Qed.

Lemma genesis_ledger_tail :
  last (chain genesis_ledger)
  = Some (mkBlock 0 (VFloat "1700000000.0") genesis_data "0" 0 genesis_digest).
Proof. vm_compute. reflexivity. Defined.

Lemma add_block_postcondition_witness :
  let prev := mkBlock 0 (VFloat "1700000000.0") genesis_data "0" 0 genesis_digest in
  let now := VFloat "1700000001.5" in
  let payload := VDict [("product_id", VStr "P1"); ("stage", VStr "Created")] in
  last (chain genesis_ledger) = Some prev /\
  0 <= 6 /\
  meets (difficulty genesis_ledger)
        (compute_hash
           (set_nonce 6 (Block_init (index prev + 1) now payload (hash prev) 0)))
  = true /\
  exists (fuel : nat) (block : Block) (self' : Blockchain) (w' : World),
    (forall fuel', (fuel <= fuel')%nat ->
       add_block fuel' now payload genesis_ledger fresh
       = Some (Returns block, self', w')) /\
    index block = index prev + 1 /\
    timestamp block = now /\
    data block = payload /\
    previous_hash block = hash prev /\
    0 <= nonce block <= 6 /\
    (forall m, 0 <= m < nonce block ->
       meets (difficulty genesis_ledger)
             (compute_hash
                (set_nonce m (Block_init (index prev + 1) now payload (hash prev) 0)))
       = false) /\
    hash block = compute_hash block /\
    meets (difficulty genesis_ledger) (hash block) = true /\
    chain self' = chain genesis_ledger ++ [block] /\
    difficulty self' = difficulty genesis_ledger /\
    persist_file self' = persist_file genesis_ledger /\
    ((persist_file genesis_ledger ∉ readonly fresh) ->
     exists records : list value,
       fs w' !! persist_file genesis_ledger = Some (Json (VList records)) /\
       List.length records = S (List.length (chain genesis_ledger)) /\
       forall (k : nat) (b : Block),
         (chain genesis_ledger ++ [block]) !! k = Some b ->
         records !! k
         = Some (VDict [ ("index", VInt (index b));
                         ("timestamp", timestamp b);
                         ("data", data b);
                         ("previous_hash", VStr (previous_hash b));
                         ("nonce", VInt (nonce b));
                         ("hash", VStr (hash b)) ])).
Proof.
  intros prev now payload.
  assert (H2 : 0 <= 6) by lia.
  assert (H3 : meets (difficulty genesis_ledger)
                 (compute_hash
                    (set_nonce 6 (Block_init (index prev + 1) now payload (hash prev) 0)))
               = true) by (vm_compute; reflexivity).
  exact (conj genesis_ledger_tail (conj H2 (conj H3
    (add_block_postcondition genesis_ledger fresh now payload prev 6
       genesis_ledger_tail H2 H3)))).
Defined.

(** C2 (as stated) fails where no seal counter can meet the difficulty: on
    the ledger of difficulty 65 that holds a genesis block, [add_block]
    returns nothing and raises nothing, however long the sealer runs. *)
Lemma add_block_unmet_difficulty :
  ~ exists (fuel : nat) (r : outcome Block) (self' : Blockchain) (w' : World),
      add_block fuel (VFloat "1700000001.5")
        (VDict [("product_id", VStr "P1"); ("stage", VStr "Created")])
        (mkBlockchain (chain genesis_ledger) 65 "chain.json") fresh
      = Some (r, self', w').
Proof.
  intros (fuel & r & self' & w' & H). unfold add_block in H.
  cbn [chain genesis_ledger last] in H.
  rewrite proof_of_work_starves in H; [discriminate|].
  cbn [difficulty]. lia.
Qed.

(* ===================================================================== *)
(** ** Ledgers built by appends, and get_all_events                       *)
(* ===================================================================== *)

Section Built.

Lemma last_index (c : list Block) (prev : Block) (n : nat) :
  List.map index c = List.map Z.of_nat (seq 0 (S n)) ->
  last c = Some prev -> index prev = Z.of_nat n.
Proof.
  intros Hidx Hlast. rewrite last_lookup in Hlast.
  assert (Hlen : List.length c = S n).
  { rewrite <- (length_map index c), Hidx, length_map. apply length_seq. }
  rewrite Hlen in Hlast. cbn [pred] in Hlast.
  assert (H : List.map index c !! n = Some (index prev)).
  { change (List.map index c) with (index <$> c).
    now rewrite list_lookup_fmap, Hlast. }
  rewrite Hidx in H. change (List.map Z.of_nat ?l) with (Z.of_nat <$> l) in H.
  rewrite list_lookup_fmap, lookup_seq_lt in H by lia.
  now injection H as <-.
Qed.

(** The chain is the genesis block followed by the appended blocks, and
    the block at position i has index i. *)
Lemma built_chain (appended : list Block) (self : Blockchain) :
  built appended self ->
  (exists genesis, chain self = genesis :: appended) /\
  List.map index (chain self)
  = List.map Z.of_nat (seq 0 (S (List.length appended))).
Proof.
  induction 1 as [now self w|appended self fuel now payload w block self' w' Hb IH Hadd].
  - split; [eexists; reflexivity|reflexivity].
  - destruct IH as [[genesis Hchain] Hidx].
    apply add_block_inv in Hadd as (prev & Hlast & Hpow & -> & _).
    cbn [chain set_chain]. split.
    + exists genesis. now rewrite Hchain.
    + apply pow_loop_fields in Hpow as (Hi & _).
      rewrite map_app, Hidx, length_app. cbn [List.length List.map].
      rewrite Hi. cbn [index Block_init set_hash].
      rewrite (last_index _ _ _ Hidx Hlast).
      replace (List.length appended + 1)%nat with (S (List.length appended)) by lia.
      rewrite (seq_S (S (List.length appended))), map_app. cbn [List.map].
      do 2 f_equal. lia.
Qed.

End Built.

(** C7. Event projection: for a ledger built by N >= 0 appends onto a
    genesis block, [get_all_events] returns one record for each appended
    block and none for the genesis block, in append order; the record of
    the k-th appended block (k from 0) shows its index, which is k + 1,
    its timestamp, payload, digest and previous digest. *)
Theorem get_all_events_built (appended : list Block) (self : Blockchain) :
  built appended self ->
  (exists genesis : Block, chain self = genesis :: appended /\ index genesis = 0) /\
  get_all_events self = List.map event appended /\
  List.length (get_all_events self) = List.length appended /\
  forall (k : nat) (b : Block),
    appended !! k = Some b ->
    index b = Z.of_nat k + 1 /\
    get_all_events self !! k
    = Some (VDict [ ("block_index", VInt (Z.of_nat k + 1));
                    ("timestamp", timestamp b);
                    ("data", data b);
                    ("hash", VStr (hash b));
                    ("previous_hash", VStr (previous_hash b)) ]).
Proof.
  intros Hb. destruct (built_chain appended self Hb) as [[genesis Hchain] Hidx].
  rewrite Hchain in Hidx. cbn [List.map seq] in Hidx.
  injection Hidx as Hg Hrest.
  assert (Hev : get_all_events self = List.map event appended).
  { unfold get_all_events. now rewrite Hchain. }
  split; [exists genesis; split; [exact Hchain|exact Hg]|].
  split; [exact Hev|].
  split; [rewrite Hev; apply length_map|].
  intros k b Hk.
  assert (Hi : index b = Z.of_nat k + 1).
  { assert (H : List.map index appended !! k = Some (index b)).
    { change (List.map index appended) with (index <$> appended).
      now rewrite list_lookup_fmap, Hk. }
    rewrite Hrest in H. change (List.map Z.of_nat ?l) with (Z.of_nat <$> l) in H.
    apply lookup_lt_Some in Hk as Hlt.
    rewrite list_lookup_fmap, lookup_seq_lt in H by exact Hlt.
    injection H as <-. lia. }
  split; [exact Hi|].
  rewrite Hev. change (List.map event appended) with (event <$> appended).
  rewrite list_lookup_fmap, Hk. cbn [fmap option_fmap option_map].
  unfold event. now rewrite Hi.
Qed.

Lemma first_append :
  add_block 7 (VFloat "1700000001.5")
    (VDict [("product_id", VStr "P1"); ("stage", VStr "Created")])
    (fst (create_genesis_block (VFloat "1700000000.0")
            (mkBlockchain [] 1 "chain.json") fresh))
    (snd (create_genesis_block (VFloat "1700000000.0")
            (mkBlockchain [] 1 "chain.json") fresh))
  = Some (Returns sealed1, sealed_pair,
          save_chain sealed_pair
            (snd (create_genesis_block (VFloat "1700000000.0")
                    (mkBlockchain [] 1 "chain.json") fresh))).
Proof. vm_compute. reflexivity. Defined.

Lemma sealed_pair_built : built [sealed1] sealed_pair.
Proof.
  exact (built_append [] _ 7 _ _ _ sealed1 sealed_pair _
           (built_genesis (VFloat "1700000000.0") (mkBlockchain [] 1 "chain.json") fresh)
           first_append).
Defined.

Lemma get_all_events_built_witness :
  built [sealed1] sealed_pair /\
  (exists genesis : Block,
     chain sealed_pair = genesis :: [sealed1] /\ index genesis = 0) /\
  get_all_events sealed_pair = List.map event [sealed1] /\
  List.length (get_all_events sealed_pair) = List.length [sealed1] /\
  forall (k : nat) (b : Block),
    [sealed1] !! k = Some b ->
    index b = Z.of_nat k + 1 /\
    get_all_events sealed_pair !! k
    = Some (VDict [ ("block_index", VInt (Z.of_nat k + 1));
                    ("timestamp", timestamp b);
                    ("data", data b);
                    ("hash", VStr (hash b));
                    ("previous_hash", VStr (previous_hash b)) ]).
Proof.
  exact (conj sealed_pair_built
           (get_all_events_built [sealed1] sealed_pair sealed_pair_built)).
Defined.

(* ===================================================================== *)
(** ** Tamper detection                                                   *)
(* ===================================================================== *)

Section Tamper.



End Tamper.




(* ===================================================================== *)
(** ** Validity, block by block                                           *)
(* ===================================================================== *)

Section Adjacent.

Implicit Types (c : list Block) (i : nat).

(** The loop passes exactly when every block agrees with the block before
    it and with its own fields. *)
Lemma valid_iff_adjacent (self : Blockchain) :
  is_chain_valid self = true <->
  forall i prev curr,
    chain self !! i = Some prev -> chain self !! S i = Some curr ->
    previous_hash curr = hash prev /\ compute_hash curr = hash curr.
Proof.
  rewrite is_chain_valid_true. split.
  - intros H i prev curr Hprev Hcurr.
    destruct (H (S i)) as [(curr' & prev' & E1 & E2 & Hl) (curr'' & E3 & Hs)].
    { apply lookup_lt_Some in Hcurr. lia. }
    replace (S i - 1)%nat with i in E2 by lia.
    rewrite Hcurr in E1, E3. rewrite Hprev in E2.
    injection E1 as <-. injection E2 as <-. injection E3 as <-. auto.
  - intros H i [Hi1 Hi2].
    destruct (lookup_lt_is_Some_2 (chain self) i) as [curr Hcurr]; [lia|].
    destruct (lookup_lt_is_Some_2 (chain self) (i - 1)) as [prev Hprev]; [lia|].
    destruct (H (i - 1)%nat prev curr) as [Hl Hs]; [exact Hprev| |].
    { now replace (S (i - 1)) with i by lia. }
    split; [exists curr, prev|exists curr]; auto.
Qed.

(** The verdict is a function of the chain alone. *)
Lemma is_chain_valid_chain (self other : Blockchain) :
  chain self = chain other -> is_chain_valid self = is_chain_valid other.
Proof. unfold is_chain_valid. now intros ->. Qed.

(** A valid chain stays valid when a block that links to its tail and
    stores its own digest is put at the end. *)
Lemma valid_snoc (c : list Block) (prev b : Block) (d : Z) (path : string) :
  is_chain_valid (mkBlockchain c d path) = true ->
  last c = Some prev ->
  previous_hash b = hash prev -> compute_hash b = hash b ->
  is_chain_valid (mkBlockchain (c ++ [b]) d path) = true.
Proof.
  intros Hv Hlast Hl Hs. apply valid_iff_adjacent. cbn [chain].
  rewrite valid_iff_adjacent in Hv. cbn [chain] in Hv.
  intros i p q Hp Hq.
  apply lookup_snoc_Some in Hq as [[Hlt Hq]|[Hlen ->]].
  - apply (Hv i p q); [|exact Hq].
    rewrite lookup_app_l in Hp by lia. exact Hp.
  - rewrite lookup_app_l in Hp by lia.
    rewrite last_lookup, <- Hlen in Hlast. cbn [pred] in Hlast.
    rewrite Hp in Hlast. injection Hlast as ->. auto.
Qed.

(** A failure inside a chain is still there after the chain was extended. *)
Lemma invalid_app (c more : list Block) (d : Z) (path : string) :
  is_chain_valid (mkBlockchain c d path) = false ->
  is_chain_valid (mkBlockchain (c ++ more) d path) = false.
Proof.
  rewrite !is_chain_valid_false. cbn [chain].
  intros (i & Hi & curr & prev & E1 & E2 & Hbad).
  exists i. split; [exact Hi|]. exists curr, prev.
  apply lookup_lt_Some in E1 as Hlt.
  rewrite !lookup_app_l by lia. auto.
Qed.

End Adjacent.

(* ===================================================================== *)
(** ** What add_block keeps                                               *)
(* ===================================================================== *)

Section Steps.

(** What one call of [add_block] that ended has done to the ledger. *)
Lemma add_block_cases (fuel : nat) (now payload : value)
    (self : Blockchain) (w : World)
    (r : outcome Block) (self' : Blockchain) (w' : World) :
  add_block fuel now payload self w = Some (r, self', w') ->
  (chain self = [] /\ r = Raises IndexError /\ self' = self /\ w' = w) \/
  (exists prev block,
     last (chain self) = Some prev /\
     r = Returns block /\
     self' = set_chain (chain self ++ [block]) self /\
     w' = save_chain self' w /\
     index block = index prev + 1 /\
     previous_hash block = hash prev /\
     hash block = compute_hash block /\
     meets (difficulty self) (hash block) = true).
Proof.
  unfold add_block. destruct (last (chain self)) as [prev|] eqn:Elast.
  - destruct (proof_of_work fuel self _) as [block|] eqn:Epow; [|discriminate].
    intros [= <- <- <-]. right. exists prev, block.
    pose proof (proof_of_work_sealed _ _ _ _ Epow) as [Hs Hm].
    apply pow_loop_fields in Epow as (Hi & _ & _ & Hp).
    repeat split; assumption.
  - intros [= <- <- <-]. left. apply last_None in Elast. auto.
Qed.

Lemma add_block_verdict (fuel : nat) (now payload : value)
    (self : Blockchain) (w : World)
    (r : outcome Block) (self' : Blockchain) (w' : World) :
  add_block fuel now payload self w = Some (r, self', w') ->
  is_chain_valid self' = is_chain_valid self.
Proof.
  intros H. apply add_block_cases in H
    as [(_ & _ & -> & _)|(prev & block & Hlast & _ & -> & _ & _ & Hl & Hs & _)];
    [reflexivity|].
  destruct self as [c d path]. cbn [chain set_chain difficulty persist_file] in *.
  destruct (is_chain_valid (mkBlockchain c d path)) eqn:E.
  - now apply valid_snoc with prev.
  - now apply invalid_app.
Qed.

End Steps.

(** X1. A ledger built by appends onto a fresh genesis block passes
    [is_chain_valid]. *)
Theorem built_valid (appended : list Block) (self : Blockchain) :
  built appended self -> is_chain_valid self = true.
Proof.
  induction 1 as [now self w|appended self fuel now payload w block self' w' Hb IH Hadd].
  - reflexivity.
  - rewrite (add_block_verdict _ _ _ _ _ _ _ _ Hadd). exact IH.
Qed.

Lemma built_valid_witness :
  built [sealed1] sealed_pair /\ is_chain_valid sealed_pair = true.
Proof.
  exact (conj sealed_pair_built (built_valid [sealed1] sealed_pair sealed_pair_built)).
Defined.

(** X2. In a ledger built by appends, the difficulty is the one the ledger was
    constructed with, and the digest of every appended block starts with
    that many zeros. *)
Theorem built_sealed (appended : list Block) (self : Blockchain) :
  built appended self ->
  forall b, b ∈ appended -> meets (difficulty self) (hash b) = true.
Proof.
  induction 1 as [now self w|appended self fuel now payload w block self' w' Hb IH Hadd];
    intros b Hin.
  - inversion Hin.
  - apply add_block_cases in Hadd
      as [(_ & [=] & _)|(prev & block' & _ & [= <-] & -> & _ & _ & _ & _ & Hm)].
    cbn [difficulty set_chain].
    apply elem_of_app in Hin as [Hin|Hin]; [now apply IH|].
    apply elem_of_cons in Hin as [->|Hin]; [exact Hm|inversion Hin].
Qed.

Lemma built_sealed_witness :
  built [sealed1] sealed_pair /\
  forall b, b ∈ [sealed1] -> meets (difficulty sealed_pair) (hash b) = true.
Proof.
  exact (conj sealed_pair_built (built_sealed [sealed1] sealed_pair sealed_pair_built)).
Defined.

(** X3. Calls of [add_block] only ever put blocks at the end: the blocks that
    were in the chain stay where they are, and the difficulty and the file
    of the ledger do not change. *)
Theorem grows_append_only (self self' : Blockchain) :
  grows self self' ->
  (exists appended : list Block, chain self' = chain self ++ appended) /\
  (forall (i : nat) (b : Block), chain self !! i = Some b -> chain self' !! i = Some b) /\
  difficulty self' = difficulty self /\
  persist_file self' = persist_file self.
Proof.
  intros Hg.
  assert (H : (exists appended, chain self' = chain self ++ appended) /\
              difficulty self' = difficulty self /\
              persist_file self' = persist_file self).
  { induction Hg as [self|self mid self' fuel now payload w w' r Hg IH Hadd].
    - split; [exists []; now rewrite app_nil_r|auto].
    - destruct IH as ([appended Hc] & Hd & Hp).
      apply add_block_cases in Hadd
        as [(_ & _ & -> & _)|(prev & block & _ & _ & -> & _)].
      + split; [exists appended; exact Hc|auto].
      + cbn [chain set_chain difficulty persist_file].
        split; [|auto]. exists (appended ++ [block]).
        now rewrite Hc, app_assoc. }
  destruct H as ([appended Hc] & Hd & Hp).
  split; [exists appended; exact Hc|]. split; [|auto].
  intros i b Hb. rewrite Hc. apply lookup_app_l_Some. exact Hb.
Qed.

Lemma genesis_grows :
  grows (fst (create_genesis_block (VFloat "1700000000.0")
                (mkBlockchain [] 1 "chain.json") fresh))
        sealed_pair.
Proof.
  exact (grows_step _ _ _ _ _ _ _ _ _ (grows_refl _) first_append).
Defined.

Lemma grows_append_only_witness :
  let start := fst (create_genesis_block (VFloat "1700000000.0")
                      (mkBlockchain [] 1 "chain.json") fresh) in
  grows start sealed_pair /\
  (exists appended : list Block, chain sealed_pair = chain start ++ appended) /\
  (forall (i : nat) (b : Block),
     chain start !! i = Some b -> chain sealed_pair !! i = Some b) /\
  difficulty sealed_pair = difficulty start /\
  persist_file sealed_pair = persist_file start.
Proof.
  exact (conj genesis_grows (grows_append_only _ _ genesis_grows)).
Defined.

(** X4. Calls of [add_block] never change the verdict of [is_chain_valid]:
    a valid chain stays valid, and a chain that fails keeps failing however
    many blocks are appended to it. *)
Theorem grows_verdict (self self' : Blockchain) :
  grows self self' -> is_chain_valid self' = is_chain_valid self.
Proof.
  induction 1 as [self|self mid self' fuel now payload w w' r Hg IH Hadd].
  - reflexivity.
  - rewrite (add_block_verdict _ _ _ _ _ _ _ _ Hadd). exact IH.
Qed.

Lemma grows_verdict_witness :
  let start := fst (create_genesis_block (VFloat "1700000000.0")
                      (mkBlockchain [] 1 "chain.json") fresh) in
  grows start sealed_pair /\
  is_chain_valid sealed_pair = is_chain_valid start.
Proof.
  exact (conj genesis_grows (grows_verdict _ _ genesis_grows)).
Defined.

(* ===================================================================== *)
(** ** What is_chain_valid detects and what it lets pass                  *)
(* ===================================================================== *)

(** X5. Any run of consecutive blocks of a valid chain is a valid chain: a
    chain cut short at the end, or with its first blocks removed, passes
    [is_chain_valid]. *)
Theorem valid_segment (self : Blockchain) (k n : nat) :
  is_chain_valid self = true ->
  is_chain_valid (set_chain (take n (drop k (chain self))) self) = true.
Proof.
  rewrite !valid_iff_adjacent. cbn [chain set_chain].
  intros H i prev curr Hprev Hcurr.
  apply lookup_take_Some in Hprev as [Hprev _].
  apply lookup_take_Some in Hcurr as [Hcurr _].
  rewrite lookup_drop in Hprev, Hcurr.
  apply (H (k + i)%nat); [exact Hprev|].
  now replace (S (k + i)) with (k + S i)%nat by lia.
Qed.

Lemma valid_segment_witness :
  is_chain_valid sealed_pair = true /\
  is_chain_valid (set_chain (take 1 (drop 1 (chain sealed_pair))) sealed_pair) = true.
Proof.
  assert (H : is_chain_valid sealed_pair = true) by (vm_compute; reflexivity).
  exact (conj H (valid_segment sealed_pair 1 1 H)).
Defined.

(** X6. In a valid chain, giving another stored digest to a block that has a
    successor (the genesis block included) makes [is_chain_valid] return
    False, whatever else is changed in that block. *)
Theorem restamped_detected (self : Blockchain) (i : nat) (b b' next : Block) :
  is_chain_valid self = true ->
  chain self !! i = Some b ->
  chain self !! S i = Some next ->
  hash b' <> hash b ->
  is_chain_valid (set_chain (<[i := b']> (chain self)) self) = false.
Proof.
  intros Hv Hb Hnext Hne.
  rewrite valid_iff_adjacent in Hv. destruct (Hv i b next Hb Hnext) as [Hl _].
  apply is_chain_valid_false. exists (S i). split; [lia|].
  exists next, b'. cbn [chain set_chain].
  replace (S i - 1)%nat with i by lia.
  split; [rewrite list_lookup_insert_ne by lia; exact Hnext|].
  split; [apply list_lookup_insert_eq; eapply lookup_lt_Some; exact Hb|].
  left. rewrite Hl. auto.
Qed.

(** The genesis block of [sealed_pair] with another timestamp and the
    digest that goes with it. *)
Lemma restamped_detected_witness :
  let genesis := Block_init 0 (VFloat "1700000000.0") genesis_data "0" 0 in
  let genesis' := Block_init 0 (VFloat "1600000000.0") genesis_data "0" 0 in
  is_chain_valid sealed_pair = true /\
  chain sealed_pair !! 0%nat = Some genesis /\
  chain sealed_pair !! 1%nat = Some sealed1 /\
  hash genesis' <> hash genesis /\
  is_chain_valid (set_chain (<[0%nat := genesis']> (chain sealed_pair)) sealed_pair)
  = false.
Proof.
  intros genesis genesis'.
  assert (H1 : is_chain_valid sealed_pair = true) by (vm_compute; reflexivity).
  assert (H2 : chain sealed_pair !! 0%nat = Some genesis) by reflexivity.
  assert (H3 : chain sealed_pair !! 1%nat = Some sealed1) by reflexivity.
  assert (H4 : hash genesis' <> hash genesis)
    by (apply String.eqb_neq; vm_compute; reflexivity).
  exact (conj H1 (conj H2 (conj H3 (conj H4
    (restamped_detected sealed_pair 0 genesis genesis' sealed1 H1 H2 H3 H4))))).
Defined.

(** X7. The last block of a valid chain can be replaced by any block that
    names the same previous digest and stores its own recomputed digest:
    the chain stays valid, with no proof of work asked of the new block. *)
Theorem tail_replaceable (self : Blockchain) (c : list Block) (b b' : Block) :
  chain self = c ++ [b] ->
  is_chain_valid self = true ->
  previous_hash b' = previous_hash b ->
  compute_hash b' = hash b' ->
  is_chain_valid (set_chain (c ++ [b']) self) = true.
Proof.
  intros Hc Hv Hp Hs. rewrite valid_iff_adjacent in Hv.
  apply valid_iff_adjacent. cbn [chain set_chain]. rewrite Hc in Hv.
  intros i p q Hi Hq.
  apply lookup_snoc_Some in Hq as [[Hlt Hq]|[Hlen ->]].
  - rewrite lookup_app_l in Hi by lia.
    apply (Hv i p q); rewrite lookup_app_l by lia; assumption.
  - rewrite lookup_app_l in Hi by lia.
    destruct (Hv i p b) as [Hl _].
    + rewrite lookup_app_l by lia. exact Hi.
    + rewrite Hlen. apply list_lookup_middle. reflexivity.
    + split; [now rewrite Hp|exact Hs].
Qed.

Lemma tail_replaceable_witness :
  let genesis := Block_init 0 (VFloat "1700000000.0") genesis_data "0" 0 in
  chain sealed_pair = [genesis] ++ [sealed1] /\
  is_chain_valid sealed_pair = true /\
  previous_hash rewritten1 = previous_hash sealed1 /\
  compute_hash rewritten1 = hash rewritten1 /\
  is_chain_valid (set_chain ([genesis] ++ [rewritten1]) sealed_pair) = true.
Proof.
  intros genesis.
  assert (H1 : chain sealed_pair = [genesis] ++ [sealed1]) by reflexivity.
  assert (H2 : is_chain_valid sealed_pair = true) by (vm_compute; reflexivity).
  assert (H3 : previous_hash rewritten1 = previous_hash sealed1) by reflexivity.
  assert (H4 : compute_hash rewritten1 = hash rewritten1) by reflexivity.
  exact (conj H1 (conj H2 (conj H3 (conj H4
    (tail_replaceable sealed_pair [genesis] sealed1 rewritten1 H1 H2 H3 H4))))).
Defined.

(* ===================================================================== *)
(** ** What a restart finds                                               *)
(* ===================================================================== *)

Section Restart.

(** Loading reads the path of the ledger and nothing else of it. *)
Lemma load_chain_returns (self self' : Blockchain) (w : World) :
  load_chain self w = Some (Returns self') ->
  persist_file self' = persist_file self /\
  forall d : Z,
    load_chain (mkBlockchain [] d (persist_file self)) w
    = Some (Returns (mkBlockchain (chain self') d (persist_file self))).
Proof.
  unfold load_chain. cbn [persist_file].
  destruct (fs w !! persist_file self) as [[| |raw]|]; try discriminate.
  destruct (iterate raw) as [[items|e]|]; try discriminate. cbn [bind].
  destruct (load_items items) as [[c|e]|]; try discriminate. cbn [bind ret].
  intros [= <-]. split; reflexivity.
Qed.

Lemma loaded_reloads (self : Blockchain) (w : World) :
  (forall d : Z,
     load_chain (mkBlockchain [] d (persist_file self)) w
     = Some (Returns (mkBlockchain (chain self) d (persist_file self)))) ->
  reloads self w.
Proof.
  intros H d now. unfold init. rewrite H.
  destruct (fs w !! persist_file self) eqn:E; [reflexivity|].
  specialize (H d). unfold load_chain in H. cbn [persist_file] in H.
  rewrite E in H. discriminate.
Qed.

Lemma saved_reloads (self : Blockchain) (w : World) :
  persist_file self ∉ readonly w -> reloads self (save_chain self w).
Proof.
  intros Hw d now. apply init_loaded.
  rewrite save_chain_writable by exact Hw. cbn [fs]. apply lookup_insert_eq.
Qed.

Lemma save_chain_readonly_same (self : Blockchain) (w : World) :
  readonly (save_chain self w) = readonly w.
Proof.
  unfold readonly, save_chain.
  now destruct (faults w !! persist_file self) as [[|]|].
Qed.

End Restart.

(** X8. As long as the file of the ledger can be written, the file follows the
    ledger: at any moment of a session, a process that constructs a ledger
    from the same file (with any difficulty) gets the chain that the
    running ledger holds, and leaves the file as it is. *)
Theorem session_restart (self : Blockchain) (w : World) (d : Z) (now : value) :
  session self w ->
  persist_file self ∉ readonly w ->
  init (persist_file self) d now w
  = Some (mkBlockchain (chain self) d (persist_file self), w).
Proof.
  intros Hs Hw. revert d now. change (reloads self w).
  induction Hs as [path d0 now0 w0 self w' Hinit
                  |self w fuel now0 payload r self' w' Hs IH Hadd].
  - unfold init in Hinit.
    assert (Hgen : Some (create_genesis_block now0 (mkBlockchain [] d0 path) w0)
                   = Some (self, w') ->
                   reloads self w').
    { unfold create_genesis_block. intros [= <- <-].
      apply saved_reloads. now rewrite save_chain_readonly_same in Hw. }
    destruct (fs w0 !! path) as [f|].
    + destruct (load_chain (mkBlockchain [] d0 path) w0) as [[self0|e]|] eqn:El;
        [|now apply Hgen|discriminate].
      injection Hinit as -> ->.
      apply load_chain_returns in El as [Hp Hl]. cbn [persist_file] in Hp, Hl.
      apply loaded_reloads. rewrite Hp. exact Hl.
    + now apply Hgen.
  - apply add_block_cases in Hadd
      as [(_ & _ & -> & ->)|(prev & block & _ & _ & -> & -> & _)].
    + now apply IH.
    + apply saved_reloads. cbn [persist_file set_chain].
      now rewrite save_chain_readonly_same in Hw.
Qed.

Lemma sealed_pair_session :
  session sealed_pair
    (save_chain sealed_pair
       (snd (create_genesis_block (VFloat "1700000000.0")
               (mkBlockchain [] 1 "chain.json") fresh))).
Proof.
  exact (session_add _ _ _ _ _ _ _ _
           (session_init "chain.json" 1 (VFloat "1700000000.0") fresh _ _
              (init_fresh "chain.json" 1 (VFloat "1700000000.0") fresh eq_refl))
           first_append).
Defined.

Lemma session_restart_witness :
  let w := save_chain sealed_pair
             (snd (create_genesis_block (VFloat "1700000000.0")
                     (mkBlockchain [] 1 "chain.json") fresh)) in
  session sealed_pair w /\
  (persist_file sealed_pair ∉ readonly w) /\
  init (persist_file sealed_pair) 3 (VFloat "1700000009.0") w
  = Some (mkBlockchain (chain sealed_pair) 3 (persist_file sealed_pair), w).
Proof.
  intros w.
  assert (H : persist_file sealed_pair ∉ readonly w)
    by (apply writable_no_fault; vm_compute; reflexivity).
  exact (conj sealed_pair_session (conj H
    (session_restart sealed_pair w 3 (VFloat "1700000009.0") sealed_pair_session H))).
Defined.

(** X9. When [load_chain] raises at construction time and the file can be
    written, the file is overwritten: afterwards it holds the record of the
    new genesis block and nothing of what it held; other files are left
    alone. *)
Theorem init_overwrites (path : string) (d : Z) (now : value) (w : World) (e : exn) :
  load_chain (mkBlockchain [] d path) w = Some (Raises e) ->
  path ∉ readonly w ->
  exists (self : Blockchain) (w' : World),
    init path d now w = Some (self, w') /\
    chain self = [Block_init 0 now genesis_data "0" 0] /\
    fs w' !! path
    = Some (Json (VList [block_record (Block_init 0 now genesis_data "0" 0)])) /\
    forall other : string, other <> path -> fs w' !! other = fs w !! other.
Proof.
  intros Hload Hw. rewrite (init_raised path d now w e Hload).
  unfold create_genesis_block. do 2 eexists. split; [reflexivity|].
  split; [reflexivity|].
  rewrite save_chain_writable by exact Hw. cbn [fs persist_file set_chain].
  split; [apply lookup_insert_eq|].
  intros other Hne. now apply lookup_insert_ne.
Qed.

(* ===================================================================== *)
(** ** What load_chain accepts and what it refuses                        *)
(* ===================================================================== *)

Section Loading.

Lemma bind_raise {A B : Type} (e : exn) (k : A -> M B) :
  bind (raise e) k = raise e.
Proof. reflexivity. Qed.

(** A record without one of the four required keys raises KeyError for
    the first of them that is missing. *)
Lemma load_item_missing (d : list (string * value)) (k : string) :
  first_missing d = Some k -> load_item (VDict d) = raise (KeyError k).
Proof.
  unfold first_missing, required_keys, load_item, getitem. cbn [List.find].
  destruct (lookup "index" d); [|now intros [= <-]].
  destruct (lookup "timestamp" d); [|now intros [= <-]].
  destruct (lookup "data" d); [|now intros [= <-]].
  destruct (lookup "previous_hash" d); [|now intros [= <-]].
  discriminate.
Qed.

(** The records before a bad one do not save the load. *)
Lemma load_items_raises (c : list Block) (bad : value) (rest : list value) (e : exn) :
  load_item bad = raise e ->
  load_items (List.map block_record c ++ bad :: rest) = raise e.
Proof.
  intros Hbad. induction c as [|b c IH]; cbn [List.map app load_items].
  - now rewrite Hbad.
  - now rewrite load_item_block_record, IH.
Qed.

(** Anything that is not a dict cannot be subscripted with a key. *)
Lemma load_item_not_dict (item : value) :
  (forall d, item <> VDict d) -> load_item item = raise TypeError.
Proof. intros H. destruct item; try reflexivity. now destruct (H items). Qed.

End Loading.

(** X10. One record without a required key, anywhere in the list, makes
    [load_chain] raise KeyError for the first key that the record lacks;
    the records before it, however sound, are not loaded. *)
Theorem load_chain_missing_key
    (self : Blockchain) (w : World)
    (c : list Block) (d : list (string * value)) (rest : list value) (k : string) :
  fs w !! persist_file self
  = Some (Json (VList (List.map block_record c ++ VDict d :: rest))) ->
  first_missing d = Some k ->
  load_chain self w = Some (Raises (KeyError k)).
Proof.
  intros Hfile Hmiss. unfold load_chain. rewrite Hfile. cbn [iterate bind ret].
  rewrite (load_items_raises c (VDict d) rest (KeyError k)); [reflexivity|].
  now apply load_item_missing.
Qed.

Lemma load_chain_missing_key_witness :
  let self := mkBlockchain [] 2 "chain.json" in
  let d := [("index", VInt 1); ("timestamp", VFloat "1700000001.5");
            ("data", VDict [("stage", VStr "Created")]); ("nonce", VInt 6)] in
  fs torn_world !! persist_file self
  = Some (Json (VList (List.map block_record
                         [Block_init 0 (VFloat "1700000000.0") genesis_data "0" 0]
                       ++ VDict d :: []))) /\
  first_missing d = Some "previous_hash"%string /\
  load_chain self torn_world = Some (Raises (KeyError "previous_hash")).
Proof.
  intros self d.
  assert (H1 : fs torn_world !! persist_file self
               = Some (Json (VList (List.map block_record
                                      [Block_init 0 (VFloat "1700000000.0")
                                         genesis_data "0" 0]
                                    ++ VDict d :: [])))) by reflexivity.
  assert (H2 : first_missing d = Some "previous_hash"%string) by reflexivity.
  exact (conj H1 (conj H2
    (load_chain_missing_key self torn_world _ d [] "previous_hash" H1 H2))).
Defined.

Lemma init_overwrites_witness :
  load_chain (mkBlockchain [] 2 "chain.json") torn_world
  = Some (Raises (KeyError "previous_hash")) /\
  ("chain.json" ∉ readonly torn_world) /\
  exists (self : Blockchain) (w' : World),
    init "chain.json" 2 (VFloat "1700000009.0") torn_world = Some (self, w') /\
    chain self = [Block_init 0 (VFloat "1700000009.0") genesis_data "0" 0] /\
    fs w' !! "chain.json"
    = Some (Json (VList [block_record
                           (Block_init 0 (VFloat "1700000009.0") genesis_data "0" 0)])) /\
    forall other : string,
      other <> "chain.json"%string -> fs w' !! other = fs torn_world !! other.
Proof.
  assert (H1 : load_chain (mkBlockchain [] 2 "chain.json") torn_world
               = Some (Raises (KeyError "previous_hash"))) by reflexivity.
  assert (H2 : "chain.json" ∉ readonly torn_world)
    by (apply writable_no_fault; reflexivity).
  exact (conj H1 (conj H2
    (init_overwrites "chain.json" 2 (VFloat "1700000009.0") torn_world _ H1 H2))).
Defined.

(** X11. A JSON document that is not a list: the empty object and the empty
    string load as an empty chain, like the empty list; any other document
    that is not a list makes [load_chain] raise TypeError. *)
Theorem load_chain_not_a_list (self : Blockchain) (w : World) (raw : value) :
  fs w !! persist_file self = Some (Json raw) ->
  (forall elems, raw <> VList elems) ->
  load_chain self w
  = match raw with
    | VDict [] | VStr EmptyString => Some (Returns (set_chain [] self))
    | _ => Some (Raises TypeError)
    end.
Proof.
  intros Hfile Hraw. unfold load_chain. rewrite Hfile.
  destruct raw as [| | | |s|elems|items]; try reflexivity.
  - destruct s; reflexivity.
  - now destruct (Hraw elems).
  - destruct items as [|[k v] items]; reflexivity.
Qed.

Lemma load_chain_not_a_list_witness :
  let w := mkWorld {["chain.json" := Json (VDict [("chain", VList [])])]} ∅ [] in
  let self := mkBlockchain [] 2 "chain.json" in
  fs w !! persist_file self = Some (Json (VDict [("chain", VList [])])) /\
  (forall elems, VDict [("chain", VList [])] <> VList elems) /\
  load_chain self w = Some (Raises TypeError).
Proof.
  intros w self.
  assert (H1 : fs w !! persist_file self = Some (Json (VDict [("chain", VList [])])))
    by reflexivity.
  assert (H2 : forall elems, VDict [("chain", VList [])] <> VList elems)
    by (intros elems; discriminate).
  exact (conj H1 (conj H2 (load_chain_not_a_list self w _ H1 H2))).
Defined.

(** X12. A record that loads: the stored digest is taken from the record as it
    is when the record has one, and is the digest recomputed from the
    loaded fields when it has none; a record without a counter gets
    counter 0. *)
Theorem load_item_defaults (d : list (string * value)) (b : Block) :
  load_item (VDict d) = Some (Returns b) ->
  (forall h, lookup "hash" d = Some (VStr h) -> hash b = h) /\
  (lookup "hash" d = None -> hash b = compute_hash b) /\
  (lookup "nonce" d = None -> nonce b = 0).
Proof.
  unfold load_item, getitem, get_default.
  destruct (lookup "index" d) as [vi|]; [|discriminate].
  destruct (lookup "timestamp" d) as [vt|]; [|discriminate].
  destruct (lookup "data" d) as [vd|]; [|discriminate].
  destruct (lookup "previous_hash" d) as [vp|]; [|discriminate].
  cbn [bind ret].
  destruct vi as [| |i| | | |]; try discriminate.
  destruct vp as [| | | |p| |]; try discriminate.
  cbn [bind ret as_int as_str].
  destruct (lookup "nonce" d) as [vn|] eqn:En.
  - destruct vn as [| |n| | | |]; try discriminate. cbn [bind ret as_int].
    destruct (lookup "hash" d) as [vh|] eqn:Eh.
    + destruct vh as [| | | |h| |]; try discriminate. cbn [bind ret as_str].
      intros [= <-]. repeat split; try discriminate. now intros h' [= <-].
    + cbn [bind ret as_str]. intros [= <-]. repeat split; discriminate.
  - cbn [bind ret as_int].
    destruct (lookup "hash" d) as [vh|] eqn:Eh.
    + destruct vh as [| | | |h| |]; try discriminate. cbn [bind ret as_str].
      intros [= <-]. repeat split; try discriminate. now intros h' [= <-].
    + cbn [bind ret as_str]. intros [= <-]. repeat split; discriminate.
Qed.

Lemma load_item_defaults_witness :
  let d := [("index", VInt 1); ("timestamp", VFloat "1700000001.5");
            ("data", VDict [("stage", VStr "Created")]);
            ("previous_hash", VStr genesis_digest)] in
  let b := Block_init 1 (VFloat "1700000001.5") (VDict [("stage", VStr "Created")])
             genesis_digest 0 in
  load_item (VDict d) = Some (Returns b) /\
  (forall h, lookup "hash" d = Some (VStr h) -> hash b = h) /\
  (lookup "hash" d = None -> hash b = compute_hash b) /\
  (lookup "nonce" d = None -> nonce b = 0).
Proof.
  intros d b.
  assert (H : load_item (VDict d) = Some (Returns b)) by (vm_compute; reflexivity).
  exact (conj H (load_item_defaults d b H)).
Defined.

(* ===================================================================== *)
(** ** Difficulty and the end of sealing                                  *)
(* ===================================================================== *)

(** X13. With a difficulty above 64, [add_block] on a non-empty chain does not
    end, whatever the payload: no bound on the sealer's loop is enough. *)
Theorem add_block_never_ends
    (self : Blockchain) (fuel : nat) (now payload : value) (w : World) :
  64 < difficulty self ->
  chain self <> [] ->
  add_block fuel now payload self w = None.
Proof.
  intros Hd Hne. unfold add_block.
  destruct (last (chain self)) as [prev|] eqn:Elast.
  - now rewrite proof_of_work_starves.
  - apply last_None in Elast. contradiction.
Qed.

Lemma add_block_never_ends_witness :
  let self := mkBlockchain (chain genesis_ledger) 65 "chain.json" in
  64 < difficulty self /\
  chain self <> [] /\
  add_block 1000 (VFloat "1700000001.5") (VDict []) self fresh = None.
Proof.
  intros self.
  assert (H1 : 64 < difficulty self) by (cbn [difficulty self]; lia).
  assert (H2 : chain self <> []) by discriminate.
  exact (conj H1 (conj H2
    (add_block_never_ends self 1000 (VFloat "1700000001.5") (VDict []) fresh H1 H2))).
Defined.

(** X14. With a difficulty of 0 or below, [add_block] on a non-empty chain
    returns after a single test: the block keeps counter 0 and the digest
    that its constructor computed. *)
Theorem add_block_at_once
    (self : Blockchain) (prev : Block) (fuel : nat) (now payload : value) (w : World) :
  difficulty self <= 0 ->
  last (chain self) = Some prev ->
  let block := Block_init (index prev + 1) now payload (hash prev) 0 in
  add_block (S fuel) now payload self w
  = Some (Returns block,
          set_chain (chain self ++ [block]) self,
          save_chain (set_chain (chain self ++ [block]) self) w).
Proof.
  intros Hd Hlast block. apply add_block_sealed with prev; [exact Hlast|].
  now rewrite proof_of_work_zero.
Qed.

Lemma add_block_at_once_witness :
  let self := mkBlockchain (chain genesis_ledger) (-3) "chain.json" in
  let prev := mkBlock 0 (VFloat "1700000000.0") genesis_data "0" 0 genesis_digest in
  let block := Block_init (index prev + 1) (VFloat "1700000001.5") (VDict [])
                 (hash prev) 0 in
  difficulty self <= 0 /\
  last (chain self) = Some prev /\
  add_block 1 (VFloat "1700000001.5") (VDict []) self fresh
  = Some (Returns block,
          set_chain (chain self ++ [block]) self,
          save_chain (set_chain (chain self ++ [block]) self) fresh).
Proof.
  intros self prev block.
  assert (H1 : difficulty self <= 0) by (cbn [difficulty self]; lia).
  exact (conj H1 (conj genesis_ledger_tail
    (add_block_at_once self prev 0 (VFloat "1700000001.5") (VDict []) fresh
       H1 genesis_ledger_tail))).
Defined.

(** X15. Sealing a block that the sealer has returned changes nothing: the
    first test succeeds and the counter is not touched. *)
Theorem reseal_unchanged (fuel fuel' : nat) (self : Blockchain) (b sealed : Block) :
  proof_of_work fuel self b = Some sealed ->
  proof_of_work (S fuel') self sealed = Some sealed.
Proof.
  intros H. apply proof_of_work_sealed in H as [Hs Hm].
  unfold proof_of_work. cbn [pow_loop]. rewrite <- Hs, Hm.
  now destruct sealed.
Qed.

Lemma candidate1_sealed :
  proof_of_work 7 (mkBlockchain [] 1 "chain.json") candidate1 = Some sealed1.
Proof. vm_compute. reflexivity. Defined.

Lemma reseal_unchanged_witness :
  let self := mkBlockchain [] 1 "chain.json" in
  proof_of_work 7 self candidate1 = Some sealed1 /\
  proof_of_work 1 self sealed1 = Some sealed1.
Proof.
  exact (conj candidate1_sealed
           (reseal_unchanged 7 0 _ candidate1 sealed1 candidate1_sealed)).
Defined.

(* ===================================================================== *)
(** ** add_block and the read API                                         *)
(* ===================================================================== *)

(** The events of a chain that got one more block at its end. *)
Lemma events_snoc (self : Blockchain) (prev block : Block) :
  last (chain self) = Some prev ->
  get_all_events (set_chain (chain self ++ [block]) self)
  = get_all_events self ++ [event block].
Proof.
  intros Hlast. unfold get_all_events. cbn [chain set_chain].
  destruct (chain self) as [|g c]; [discriminate|].
  change (drop 1 ((g :: c) ++ [block])) with (c ++ [block]).
  change (drop 1 (g :: c)) with c.
  now rewrite map_app.
Qed.

(** X16. A call of [add_block] that returns a block adds the record of that
    block at the end of [get_all_events] and of [to_list], and leaves the
    records that were there as they are. *)
Theorem add_block_events
    (fuel : nat) (now payload : value) (self : Blockchain) (w : World)
    (block : Block) (self' : Blockchain) (w' : World) :
  add_block fuel now payload self w = Some (Returns block, self', w') ->
  get_all_events self' = get_all_events self ++ [event block] /\
  to_list self'
  = VList (List.map block_record (chain self) ++ [block_record block]).
Proof.
  intros H. apply add_block_cases in H
    as [(_ & [=] & _)|(prev & block' & Hlast & [= <-] & -> & _)].
  split; [now apply events_snoc with prev|].
  unfold to_list. cbn [chain set_chain]. now rewrite map_app.
Qed.

Lemma add_block_events_witness :
  let start := create_genesis_block (VFloat "1700000000.0")
                 (mkBlockchain [] 1 "chain.json") fresh in
  add_block 7 (VFloat "1700000001.5")
    (VDict [("product_id", VStr "P1"); ("stage", VStr "Created")])
    (fst start) (snd start)
  = Some (Returns sealed1, sealed_pair, save_chain sealed_pair (snd start)) /\
  get_all_events sealed_pair = get_all_events (fst start) ++ [event sealed1] /\
  to_list sealed_pair
  = VList (List.map block_record (chain (fst start)) ++ [block_record sealed1]).
Proof.
  exact (conj first_append (add_block_events _ _ _ _ _ _ _ _ first_append)).
Defined.

(* ===================================================================== *)
(** ** The form of a digest                                               *)
(* ===================================================================== *)

Section DigestForm.

(** A property of the sixteen values of a nibble is checked value by
    value. *)
Lemma nibble_cases (P : Z -> Prop) :
  (forall k : nat, (k < 16)%nat -> P (Z.of_nat k)) ->
  forall n : Z, 0 <= n < 16 -> P n.
Proof.
  intros H n Hn. rewrite <- (Z2Nat.id n) by lia. apply H. lia.
Qed.

Lemma hex_digit_hex (n : Z) :
  0 <= n < 16 ->
  In (Sha256.hex_digit n) (list_ascii_of_string "0123456789abcdef").
Proof.
  revert n. apply nibble_cases. intros k Hk.
  do 16 (destruct k as [|k]; [vm_compute; tauto|]). lia.
Qed.

Lemma nibble_hex (w i : Z) :
  In (Sha256.nibble w i) (list_ascii_of_string "0123456789abcdef").
Proof.
  unfold Sha256.nibble. apply hex_digit_hex.
  change 0xF with (Z.ones 4). rewrite Z.land_ones by lia.
  apply Z.mod_pos_bound. lia.
Qed.

End DigestForm.

(** X17. A digest is a text of 64 characters, each one of 0-9 and a-f, whatever
    the block holds. *)
Theorem compute_hash_form (b : Block) :
  String.length (compute_hash b) = 64%nat /\
  Forall (fun c => In c (list_ascii_of_string "0123456789abcdef"))
         (list_ascii_of_string (compute_hash b)).
Proof.
  split; [reflexivity|].
  unfold compute_hash, Sha256.hexdigest, Sha256.hex_regs, Sha256.hex_word.
  cbn [list_ascii_of_string].
  repeat (apply Forall_cons; split; [apply nibble_hex|]).
  apply Forall_nil_2.
Qed.

(* ===================================================================== *)
(** ** The add_product route                                              *)
(* ===================================================================== *)




(** X19. On a ledger whose chain is empty, [add_product] registers the product
    and then fails with the IndexError of [add_block]: the product is in
    [products], and no block and no file records it. *)
Theorem add_product_empty_chain
    (fuel : nat) (secs : Z) (iso : string) (now : value)
    (form : list (string * string)) (app : App) (w : World) :
  chain (bc app) = [] ->
  let pid := product_id_of form secs in
  add_product fuel secs iso now form app w
  = Some (Raises IndexError,
          mkApp (bc app)
                (<[pid := product_record pid (name_of form pid) iso]> (products app)),
          w).
Proof.
  intros Hc pid. unfold add_product, add_block. now rewrite Hc.
Qed.

Lemma add_product_empty_chain_witness :
  let app := mkApp (mkBlockchain [] 2 "chain.json") ∅ in
  let pid := product_id_of [] 1700000001 in
  chain (bc app) = [] /\
  pid = "P1700000001"%string /\
  add_product 5 1700000001 "2023-11-14T22:13:21.500000" (VFloat "1700000001.5")
              [] app empty_list_world
  = Some (Raises IndexError,
          mkApp (bc app)
                (<[pid := product_record pid (name_of [] pid) "2023-11-14T22:13:21.500000"]>
                   (products app)),
          empty_list_world).
Proof.
  intros app pid.
  assert (H : chain (bc app) = []) by reflexivity.
  assert (Hp : pid = "P1700000001"%string) by (vm_compute; reflexivity).
  exact (conj H (conj Hp
    (add_product_empty_chain 5 1700000001 "2023-11-14T22:13:21.500000"
       (VFloat "1700000001.5") [] app empty_list_world H))).
Defined.

(* ===================================================================== *)
(** ** The hashed text is ASCII                                           *)
(* ===================================================================== *)

Section Ascii.

Lemma chars_app (s1 s2 : string) :
  list_ascii_of_string (s1 ++ s2)
  = list_ascii_of_string s1 ++ list_ascii_of_string s2.
Proof.
  induction s1 as [|c s1 IH]; [reflexivity|].
  change (c :: list_ascii_of_string (s1 ++ s2)
          = c :: (list_ascii_of_string s1 ++ list_ascii_of_string s2)).
  now rewrite IH.
Qed.

Lemma ascii_text_app (s1 s2 : string) :
  ascii_text s1 -> ascii_text s2 -> ascii_text (s1 ++ s2).
Proof. unfold ascii_text. rewrite chars_app. apply Forall_app_2. Qed.

Lemma ascii_text_cons (c : ascii) (s : string) :
  printable c -> ascii_text s -> ascii_text (String c s).
Proof. intros Hc Hs. now apply Forall_cons. Qed.

Lemma ascii_text_nil : ascii_text "".
Proof. apply Forall_nil_2. Qed.

(** Closed texts are checked by evaluation. *)
Ltac literal :=
  repeat (apply ascii_text_cons; [unfold printable; vm_compute; split; discriminate|]);
  try apply ascii_text_nil.

Lemma hex_digit_printable (n : Z) : 0 <= n < 16 -> printable (Sha256.hex_digit n).
Proof.
  revert n. apply nibble_cases. intros k Hk. unfold printable.
  do 16 (destruct k as [|k]; [vm_compute; split; discriminate|]). lia.
Qed.

Lemma nibble_printable (w i : Z) : printable (Sha256.nibble w i).
Proof.
  unfold Sha256.nibble. apply hex_digit_printable.
  change 0xF with (Z.ones 4). rewrite Z.land_ones by lia.
  apply Z.mod_pos_bound. lia.
Qed.

Lemma escape_char_ascii (c : ascii) : ascii_text (escape_char c).
Proof.
  unfold escape_char.
  repeat match goal with
         | |- context [if ?b then _ else _] => destruct b eqn:?
         end;
    try (now literal).
  - apply ascii_text_cons; [|apply ascii_text_nil].
    unfold printable. lia.
  - unfold hex4.
    apply ascii_text_cons; [unfold printable; vm_compute; split; discriminate|].
    apply ascii_text_cons; [unfold printable; vm_compute; split; discriminate|].
    repeat (apply ascii_text_cons; [apply nibble_printable|]).
    apply ascii_text_nil.
Qed.

Lemma escape_ascii (s : string) : ascii_text (escape s).
Proof.
  induction s as [|c s IH]; cbn [escape]; [apply ascii_text_nil|].
  apply ascii_text_app; [apply escape_char_ascii|exact IH].
Qed.

Lemma quote_ascii (s : string) : ascii_text (quote s).
Proof.
  unfold quote.
  apply ascii_text_cons; [unfold printable; vm_compute; split; discriminate|].
  apply ascii_text_app; [apply escape_ascii|now literal].
Qed.

Lemma uint_ascii (d : Decimal.uint) : ascii_text (NilEmpty.string_of_uint d).
Proof.
  induction d; cbn [NilEmpty.string_of_uint];
    [apply ascii_text_nil|..];
    (apply ascii_text_cons; [unfold printable; vm_compute; split; discriminate|exact IHd]).
Qed.

Lemma int_str_ascii (z : Z) : ascii_text (int_str z).
Proof.
  unfold int_str, NilZero.string_of_int.
  destruct (Z.to_int z) as [d|d].
  - unfold NilZero.string_of_uint. destruct d; try apply uint_ascii. now literal.
  - apply ascii_text_cons; [unfold printable; vm_compute; split; discriminate|].
    unfold NilZero.string_of_uint. destruct d; try apply uint_ascii. now literal.
Qed.

Lemma join_ascii (sep : string) (parts : list string) :
  ascii_text sep -> Forall ascii_text parts -> ascii_text (join sep parts).
Proof.
  intros Hsep Hparts. induction Hparts as [|p parts Hp Hparts IH]; [apply ascii_text_nil|].
  cbn [join]. destruct parts as [|q parts]; [exact Hp|].
  apply ascii_text_app; [exact Hp|]. apply ascii_text_app; [exact Hsep|exact IH].
Qed.

Lemma insert_item_Forall {A : Type} (P : string * A -> Prop)
    (x : string * A) (l : list (string * A)) :
  P x -> Forall P l -> Forall P (insert_item x l).
Proof.
  intros Hx Hl. induction Hl as [|y l Hy Hl IH]; cbn [insert_item].
  - now repeat constructor.
  - destruct (String.leb (fst x) (fst y)); repeat constructor; assumption.
Qed.

Lemma sort_items_Forall {A : Type} (P : string * A -> Prop) (l : list (string * A)) :
  Forall P l -> Forall P (sort_items l).
Proof.
  intros Hl. induction Hl as [|x l Hx Hl IH]; cbn [sort_items fold_right].
  - constructor.
  - now apply insert_item_Forall.
Qed.

Lemma member_ascii (kv : string * string) :
  ascii_text (snd kv) -> ascii_text (member kv).
Proof.
  intros H. unfold member.
  apply ascii_text_app; [apply quote_ascii|]. apply ascii_text_app; [now literal|exact H].
Qed.

(** What [json.dumps] writes is ASCII, floats apart. *)
Lemma dumps_ascii (v : value) : floats_ascii v -> ascii_text (dumps v).
Proof.
  revert v. fix dumps_ascii 1.
  intros v. destruct v as [|b|z|r|s|elems|items]; intros Hf.
  - now literal.
  - destruct b; now literal.
  - apply int_str_ascii.
  - exact Hf.
  - apply quote_ascii.
  - cbn [dumps].
    apply ascii_text_cons; [unfold printable; vm_compute; split; discriminate|].
    apply ascii_text_app; [|now literal].
    apply join_ascii; [now literal|].
    cbn [floats_ascii] in Hf.
    induction elems as [|x elems IH]; cbn [List.map]; [constructor|].
    destruct Hf as [Hx Hf]. constructor; [now apply dumps_ascii|now apply IH].
  - cbn [dumps].
    apply ascii_text_cons; [unfold printable; vm_compute; split; discriminate|].
    apply ascii_text_app; [|now literal].
    apply join_ascii; [now literal|].
    apply Forall_map. apply sort_items_Forall.
    cbn [floats_ascii] in Hf.
    induction items as [|kv items IH]; cbn [List.map]; [constructor|].
    destruct Hf as [Hx Hf]. constructor; [|now apply IH].
    apply member_ascii. cbn [snd]. now apply dumps_ascii.
Qed.

End Ascii.

(** X20. The text that [compute_hash] hashes is made of printable ASCII
    characters, whatever strings the block holds, as long as the [repr] of
    its floats is: [encode] gives one byte below 128 for each character. *)
Theorem block_string_ascii (b : Block) :
  floats_ascii (timestamp b) ->
  floats_ascii (data b) ->
  ascii_text (block_string b) /\
  Forall (fun byte => 32 <= byte <= 126) (Sha256.encode (block_string b)).
Proof.
  intros Ht Hd.
  assert (H : ascii_text (block_string b)).
  { unfold block_string. apply dumps_ascii. cbn [floats_ascii snd]. tauto. }
  split; [exact H|].
  unfold Sha256.encode. apply Forall_map. exact H.
Qed.

Lemma block_string_ascii_witness :
  floats_ascii (timestamp sealed1) /\
  floats_ascii (data sealed1) /\
  ascii_text (block_string sealed1) /\
  Forall (fun byte => 32 <= byte <= 126) (Sha256.encode (block_string sealed1)).
Proof.
  assert (H1 : floats_ascii (timestamp sealed1)).
  { cbn. repeat (apply Forall_cons; split; [unfold printable; vm_compute; split; discriminate|]).
    apply Forall_nil_2. }
  assert (H2 : floats_ascii (data sealed1)) by (cbn; tauto).
  exact (conj H1 (conj H2 (block_string_ascii sealed1 H1 H2))).
Defined.
